(** * The Elasticsearch scaler of KEDA: a shallow embedding and its properties

    Source: [pkg/scalers/elasticsearch_scaler.go].

    Go strings are byte sequences and are modelled by [string]; Go's [int]
    is the 64-bit signed integer, modelled by [Z] with its range written
    out; a Go map is a [gmap]. A function returning a value and an error
    returns a pair whose second component is [None] for the nil error; a
    function returning a pointer and an error, where the pointer is nil
    exactly when the error is not, returns a sum ([inl] the pointee, [inr]
    the error). A run-time panic is an explicit outcome of the [exec]
    monad. Logging is not modelled. *)

From Stdlib Require Import ZArith QArith Qround String Ascii List Lia.
From Stdlib Require Import Floats.SpecFloat.
From stdpp Require Import base option list gmap strings pretty.

Local Open Scope Z_scope.
Local Open Scope stdpp_scope.

(** ** Package [strings] of the Go standard library *)

Module strings.

(** [s[:n]] and [s[n:]] for [n] within the string. *)
Fixpoint take (n : nat) (s : string) : string :=
  match n, s with
  | S n', String c r => String c (take n' r)
  | _, _ => ""
  end.

Fixpoint drop (n : nat) (s : string) : string :=
  match n, s with
  | S n', String _ r => drop n' r
  | _, _ => s
  end.

(** [CutPrefix]: the rest of [s] after the leading [prefix], if it is one. *)
Fixpoint CutPrefix (s prefix : string) {struct prefix} : option string :=
  match prefix, s with
  | "", _ => Some s
  | String a p, String b r => if Ascii.eqb a b then CutPrefix r p else None
  | String _ _, "" => None
  end.

(** [Cut] slices [s] around the first instance of [sep]. *)
Fixpoint Cut (s sep : string) : option (string * string) :=
  match CutPrefix s sep with
  | Some after => Some ("", after)
  | None =>
      match s with
      | "" => None
      | String c r =>
          match Cut r sep with
          | Some (before, after) => Some (String c before, after)
          | None => None
          end
      end
  end.

(** Size in bytes of the first UTF-8 sequence of [s], as
    [utf8.DecodeRuneInString] reports it: an invalid or truncated
    sequence has size 1. *)
Definition byte_in (lo hi : N) (c : ascii) : bool :=
  ((lo <=? N_of_ascii c) && (N_of_ascii c <=? hi))%N.

Definition utf8_follow (n : nat) (lo hi : N) (r : string) : nat :=
  match n, r with
  | 1%nat, String c1 _ => if byte_in lo hi c1 then 2 else 1
  | 2%nat, String c1 (String c2 _) =>
      if byte_in lo hi c1 && byte_in 128 191 c2 then 3 else 1
  | 3%nat, String c1 (String c2 (String c3 _)) =>
      if byte_in lo hi c1 && byte_in 128 191 c2 && byte_in 128 191 c3
      then 4 else 1
  | _, _ => 1
  end%nat.

Definition utf8_size (s : string) : nat :=
  match s with
  | "" => 0%nat
  | String c0 r =>
      let b := N_of_ascii c0 in
      if (b <? 194)%N then 1%nat
      else if (b <? 224)%N then utf8_follow 1 128 191 r
      else if (b =? 224)%N then utf8_follow 2 160 191 r
      else if (b =? 237)%N then utf8_follow 2 128 159 r
      else if (b <? 240)%N then utf8_follow 2 128 191 r
      else if (b =? 240)%N then utf8_follow 3 144 191 r
      else if (b <? 244)%N then utf8_follow 3 128 191 r
      else if (b =? 244)%N then utf8_follow 3 128 143 r
      else 1%nat
  end.

(** [explode]: one string per UTF-8 sequence; invalid bytes are sliced
    individually. *)
Fixpoint explode_loop (fuel : nat) (s : string) : list string :=
  match fuel, s with
  | S n, String _ _ =>
      take (utf8_size s) s :: explode_loop n (drop (utf8_size s) s)
  | _, _ => []
  end.

Definition explode (s : string) : list string :=
  explode_loop (String.length s) s.

(** The loop of [genSplit]: cut at the first separator until none is left.
    Every cut of a non-empty separator shortens the string, so the length
    of [s] bounds the number of iterations. *)
Fixpoint genSplit (fuel : nat) (s sep : string) : list string :=
  match fuel with
  | O => [s]
  | S n =>
      match Cut s sep with
      | None => [s]
      | Some (before, after) => before :: genSplit n after sep
      end
  end.

(** [Split] slices [s] into all substrings separated by [sep]; with an
    empty [sep] it splits after each UTF-8 sequence. *)
Definition Split (s sep : string) : list string :=
  match sep with
  | "" => explode s
  | _ => genSplit (String.length s) s sep
  end.

(** [Join] concatenates the elements with [sep] between them. *)
Fixpoint Join (elems : list string) (sep : string) : string :=
  match elems with
  | [] => ""
  | [x] => x
  | x :: rest => x +:+ sep +:+ Join rest sep
  end.

(** Membership of a byte in a cutset. *)
Fixpoint inCutset (c : ascii) (cutset : string) : bool :=
  match cutset with
  | "" => false
  | String d r => Ascii.eqb c d || inCutset c r
  end.

Fixpoint TrimLeft (s cutset : string) : string :=
  match s with
  | "" => ""
  | String c r => if inCutset c cutset then TrimLeft r cutset else s
  end.

Fixpoint TrimRight (s cutset : string) : string :=
  match s with
  | "" => ""
  | String c r =>
      match TrimRight r cutset with
      | "" => if inCutset c cutset then "" else String c ""
      | r' => String c r'
      end
  end.

(** [Trim] removes the leading and trailing bytes contained in [cutset]
    (the cutsets of this program are ASCII, where bytes and code points
    coincide). *)
Definition Trim (s cutset : string) : string :=
  TrimLeft (TrimRight s cutset) cutset.


End strings.

(** ** [splitAndTrimBySep] *)

(** Splits a string separated by a specified separator and trims space from
    all the elements. *)
Definition splitAndTrimBySep (s sep : string) : list string :=
  let x := strings.Split s sep in
  (fun xi => strings.Trim xi " ") <$> x.

(** ** Errors and panics *)

(** Go error values. [Errorf format e] stands for the error made by
    [fmt.Errorf] from a format with one [%s] verb whose argument is the
    message of [e]; [ErrorfString] is the same with a string argument. An
    error of a collaborator (transport, search engine) is an
    [errorString]. *)
Inductive error : Type :=
  | errorString (s : string)
  | NumError (Func Num : string) (Err : error)
  | ErrorfString (format : string) (a : string)
  | Errorf (format : string) (a : error).

Inductive runtimeError : Type :=
  | indexOutOfRange (i len : nat).

(** Outcome of a call that can panic. *)
Inductive exec (A : Type) : Type :=
  | Return (a : A)
  | Panic (e : runtimeError).
Arguments Return {A} a.
Arguments Panic {A} e.

#[global] Instance exec_ret : MRet exec := @Return.
#[global] Instance exec_bind : MBind exec := fun A B f m =>
  match m with
  | Return a => f a
  | Panic e => Panic e
  end.

(** [for _, p := range l { s = body(s, p) }] *)
Fixpoint rangeLoop {A S : Type} (body : S → A → exec S) (l : list A) (s : S)
  : exec S :=
  match l with
  | [] => Return s
  | p :: rest => s' ← body s p; rangeLoop body rest s'
  end.

(** [x[i]] on a slice. *)
Definition index (x : list string) (i : nat) : exec string :=
  match x !! i with
  | Some v => Return v
  | None => Panic (indexOutOfRange i (length x))
  end.

(** [m[k]] on a [map[string]string]: the zero value when the key is absent. *)
Definition mapIndex (m : gmap string string) (k : string) : string :=
  default "" (m !! k).

(** ** Package [strconv] of the Go standard library *)

Module strconv.

Definition ErrSyntax : error := errorString "invalid syntax".
Definition ErrRange : error := errorString "value out of range".

Definition minInt : Z := - 2 ^ 63.
Definition maxInt : Z := 2 ^ 63 - 1.
Definition maxUint64 : Z := 2 ^ 64 - 1.

Definition in_int (z : Z) : Prop := minInt ≤ z ≤ maxInt.

(** The digit loop of [ParseUint] in base 10 for 64 bits: a byte that is
    not a digit is a syntax error, a value beyond [maxUint64] a range
    error ([Some false] and [Some true] here). *)
Fixpoint ParseUint_loop (s : string) (n : Z) : Z * option bool :=
  match s with
  | "" => (n, None)
  | String c r =>
      let d := Z.of_N (N_of_ascii c) - 48 in
      if negb ((0 <=? d) && (d <=? 9)) then (0, Some false)
      else if maxUint64 `div` 10 + 1 <=? n then (maxUint64, Some true)
      else if maxUint64 <? n * 10 + d then (maxUint64, Some true)
      else ParseUint_loop r (n * 10 + d)
  end.

(** [Atoi] is [ParseInt(s, 10, 0)] with the function name of the error
    replaced: an optional sign, then decimal digits; the value must fit
    the 64-bit [int]. *)
Definition Atoi (s : string) : Z * option error :=
  let fnAtoi := "Atoi" in
  match s with
  | "" => (0, Some (NumError fnAtoi s ErrSyntax))
  | String c r =>
      let neg := Ascii.eqb c "-" in
      let s1 := if Ascii.eqb c "+" || neg then r else s in
      match s1 with
      | "" => (0, Some (NumError fnAtoi s ErrSyntax))
      | _ =>
          match ParseUint_loop s1 0 with
          | (_, Some false) => (0, Some (NumError fnAtoi s ErrSyntax))
          | (un, _) =>
              if negb neg && (2 ^ 63 <=? un)
              then (maxInt, Some (NumError fnAtoi s ErrRange))
              else if neg && (2 ^ 63 <? un)
              then (minInt, Some (NumError fnAtoi s ErrRange))
              else (if neg then - un else un, None)
          end
      end
  end.

Definition ParseBool (str : string) : bool * option error :=
  if bool_decide (str ∈ ["1"; "t"; "T"; "TRUE"; "true"; "True"])
  then (true, None)
  else if bool_decide (str ∈ ["0"; "f"; "F"; "FALSE"; "false"; "False"])
  then (false, None)
  else (false, Some (NumError "ParseBool" str ErrSyntax)).

End strconv.

(** ** [float64] and its conversion to [int] *)

(** A [float64] is an IEEE 754 binary64 value: [S754_finite s m e] is
    [(-1)^s * m * 2^e]. *)
Definition float64 : Type := spec_float.

(** The rational a finite [float64] denotes. *)
Definition float64_value (f : float64) : option Q :=
  match f with
  | S754_zero _ => Some 0%Q
  | S754_finite s m e =>
      let a := if 0 <=? e then inject_Z (Z.pos m * 2 ^ e)
               else Qmake (Z.pos m) (2 ^ Z.to_pos (- e)) in
      Some (if s then Qopp a else a)
  | _ => None
  end.

(** [int(f)]: the fraction is discarded. When the result does not fit
    the 64-bit [int] (or [f] is an infinity or NaN) the Go specification
    leaves the value to the implementation; this is the one of amd64,
    the "integer indefinite" value. *)
Definition int_of_float64 (f : float64) : Z :=
  match f with
  | S754_zero _ => 0
  | S754_finite s m e =>
      let a := if 0 <=? e then Z.pos m * 2 ^ e else Z.pos m `div` 2 ^ (- e) in
      let v := if s then - a else a in
      if (strconv.minInt <=? v) && (v <=? strconv.maxInt) then v
      else strconv.minInt
  | _ => strconv.minInt
  end.

(** ** Package [gjson] (github.com/tidwall/gjson) *)

Module gjson.

(** The type of a located value: [Null] also stands for a path that does
    not resolve, [JSON] for an array or an object. *)
Inductive ResultType : Type := Null | False | Number | String | True | JSON.

Definition ResultType_String (t : ResultType) : string :=
  match t with
  | gjson.Null => "Null"
  | gjson.False => "False"
  | gjson.Number => "Number"
  | gjson.String => "String"
  | gjson.True => "True"
  | gjson.JSON => "JSON"
  end.

Record Result : Type := mkResult {
  Type_ : ResultType;
  Raw : string;
  Str : string;
  Num : float64;
}.

(** [Result.String]. For a [Number] gjson gives the raw text when that
    is an integer literal and a formatting of [Num] otherwise; the raw
    text stands for both here. The scaler calls [String] on [String]
    results only. *)
Definition Result_String (t : Result) : string :=
  match Type_ t with
  | gjson.False => "false"
  | gjson.String => Str t
  | gjson.JSON => Raw t
  | gjson.True => "true"
  | gjson.Number => Raw t
  | gjson.Null => ""
  end.

End gjson.

(** The path evaluator, an external collaborator: [GetBytes json path]
    searches [json] for [path]. *)
Class Gjson : Type := { GetBytes : string → string → gjson.Result }.

(** What a path resolves to, in the words of JSON. *)
Inductive located : Type :=
  | Absent
  | JNull
  | JBool (b : bool)
  | JNumber (n : float64)
  | JString (s : string)
  | JArray
  | JObject.

(** How gjson reports each kind of located value. *)
Definition resolves (r : gjson.Result) (v : located) : Prop :=
  match v with
  | Absent | JNull => gjson.Type_ r = gjson.Null
  | JBool b => gjson.Type_ r = (if b then gjson.True else gjson.False)
  | JNumber n => gjson.Type_ r = gjson.Number ∧ gjson.Num r = n
  | JString s => gjson.Type_ r = gjson.String ∧ gjson.Str r = s
  | JArray | JObject => gjson.Type_ r = gjson.JSON
  end.

(** ** The value extractor *)

Definition errorMsg : string :=
  "valueLocation must point to value of type number but got: '%s'".

Definition getValueFromSearch `{Gjson} (body valueLocation : string)
  : Z * option error :=
  let r := GetBytes body valueLocation in
  match gjson.Type_ r with
  | gjson.String =>
      match strconv.Atoi (gjson.Result_String r) with
      | (_, Some err) => (0, Some (ErrorfString errorMsg (gjson.Result_String r)))
      | (q, None) => (q, None)
      end
  | gjson.Number => (int_of_float64 (gjson.Num r), None)
  | t => (0, Some (ErrorfString errorMsg (gjson.ResultType_String t)))
  end.

(** ** Configuration *)

(** Modelled from the spec: the type [ScalerConfig] is declared outside
    this file; it holds the trigger metadata, the auth parameters and the
    resolved environment, three maps from strings to strings. *)
Record ScalerConfig : Type := {
  TriggerMetadata : gmap string string;
  AuthParams : gmap string string;
  ResolvedEnv : gmap string string;
}.

(** Modelled from the spec: the helper [GetFromAuthOrMeta] is defined
    outside this file. A field may be supplied by the auth parameters or
    the trigger metadata, the auth parameters take precedence, and a
    missing (empty) field is an error that names the field. *)
Definition GetFromAuthOrMeta (config : ScalerConfig) (field : string)
  : string * option error :=
  if decide (mapIndex (AuthParams config) field ≠ "")
  then (mapIndex (AuthParams config) field, None)
  else if decide (mapIndex (TriggerMetadata config) field ≠ "")
  then (mapIndex (TriggerMetadata config) field, None)
  else ("", Some (ErrorfString "no %s given" field)).

Record elasticsearchMetadata : Type := {
  addresses : list string;
  unsafeSsl : bool;
  username : string;
  password : string;
  indexes : list string;
  searchTemplateName : string;
  parameters : list string;
  valueLocation : string;
  targetValue : Z;
}.

Definition defaultUnsafeSsl : bool := false.

Definition parseElasticsearchMetadata (config : ScalerConfig)
  : elasticsearchMetadata + error :=
  match GetFromAuthOrMeta config "addresses" with
  | (_, Some err) => inr err
  | (addresses_, None) =>
  let meta_addresses := splitAndTrimBySep addresses_ "," in
  match
    match TriggerMetadata config !! "unsafeSsl" with
    | Some val => strconv.ParseBool val
    | None => (defaultUnsafeSsl, None)
    end
  with
  | (_, Some err) => inr (Errorf "error parsing unsafeSsL: %s" err)
  | (meta_unsafeSsl, None) =>
  let meta_username :=
    match AuthParams config !! "username" with
    | Some val => val
    | None =>
        match TriggerMetadata config !! "username" with
        | Some val => val
        | None => ""
        end
    end in
  let meta_password :=
    if decide (mapIndex (AuthParams config) "password" ≠ "")
    then mapIndex (AuthParams config) "password"
    else if decide (mapIndex (TriggerMetadata config) "passwordFromEnv" ≠ "")
    then mapIndex (ResolvedEnv config)
           (mapIndex (TriggerMetadata config) "passwordFromEnv")
    else "" in
  match GetFromAuthOrMeta config "index" with
  | (_, Some err) => inr err
  | (index_, None) =>
  let meta_indexes := splitAndTrimBySep index_ ";" in
  match GetFromAuthOrMeta config "searchTemplateName" with
  | (_, Some err) => inr err
  | (meta_searchTemplateName, None) =>
  let meta_parameters :=
    match TriggerMetadata config !! "parameters" with
    | Some val => splitAndTrimBySep val ";"
    | None => []
    end in
  match GetFromAuthOrMeta config "valueLocation" with
  | (_, Some err) => inr err
  | (meta_valueLocation, None) =>
  match GetFromAuthOrMeta config "targetValue" with
  | (_, Some err) => inr err
  | (targetValue_, None) =>
  match strconv.Atoi targetValue_ with
  | (_, Some err) => inr (Errorf "targetValue parsing error %s" err)
  | (meta_targetValue, None) =>
      inl {| addresses := meta_addresses;
             unsafeSsl := meta_unsafeSsl;
             username := meta_username;
             password := meta_password;
             indexes := meta_indexes;
             searchTemplateName := meta_searchTemplateName;
             parameters := meta_parameters;
             valueLocation := meta_valueLocation;
             targetValue := meta_targetValue |}
  end end end end end end end.

(** ** The query builder *)

(** A value stored in the query document: the template name or the
    parameter mapping. *)
Inductive queryValue : Type :=
  | qString (s : string)
  | qParams (m : gmap string string).

(** The body of the loop of [buildQuery]: [parameters[kv[0]] = kv[1]] for
    a non-empty token. *)
Definition setParameter (parameters_ : gmap string string) (p : string)
  : exec (gmap string string) :=
  if decide (p ≠ "") then
    let kv := splitAndTrimBySep p ":" in
    k ← index kv 0;
    v ← index kv 1;
    mret (<[k := v]> parameters_)
  else mret parameters_.

Definition buildQuery (metadata : elasticsearchMetadata)
  : exec (gmap string queryValue) :=
  parameters_ ← rangeLoop setParameter (parameters metadata) ∅;
  let query : gmap string queryValue :=
    {[ "id" := qString (searchTemplateName metadata) ]} in
  if (0 <? size parameters_)%nat
  then mret (<["params" := qParams parameters_]> query)
  else mret query.

(** ** The search engine client and the scaler *)

Module elasticsearch.

(** The client configuration; [Transport] is [Some insecureSkipVerify]
    when a transport of the scaler's own is set. *)
Record Config : Type := {
  Addresses : list string;
  Username : string;
  Password : string;
  Transport : option bool;
}.

(** The client library, an external collaborator: it builds a client,
    pings the engine, runs a templated search against a set of indexes and
    hands out the body of a response ([ioutil.ReadAll] of it). *)
Class Client : Type := {
  client : Type;
  Response : Type;
  NewClient : Config → client + error;
  Info : client → Response + error;
  SearchTemplate : client → string → list string → Response + error;
  ReadAll : Response → string * option error;
}.

End elasticsearch.

(** [json.NewEncoder(&body).Encode(v)] on a query document: the bytes
    written and the error. *)
Class JSONEncoder : Type := {
  Encode : gmap string queryValue → string * option error;
}.


(** Modelled from the spec: [kedautil.NormalizeString] (package
    [pkg/util]) is defined outside this file, and the spec says of the
    metric name only that it is derived from the template name and the
    target value. This is the helper as the keda repository defines it:
    every slash, dot, colon and percent sign becomes a dash. *)
Module kedautil.
End kedautil.

(** Modelled from the spec: [GenerateMetricNameWithIndex] and
    [externalMetricType] are defined in another file of the package
    [scalers]. As the keda repository defines them, the name is
    [fmt.Sprintf("s%d-%s", scalerIndex, metricName)], where [%d] writes
    the decimal numeral of the index ([pretty] here), and the type is
    "External". *)
Module scalers.
End scalers.


Record elasticsearchScaler `{elasticsearch.Client} : Type := {
  metadata : elasticsearchMetadata;
  esClient : elasticsearch.client;
}.


(** Kubernetes API values, as far as the scaler fills them in. *)
Module resource.
Inductive Format : Type := DecimalSI | BinarySI | DecimalExponent.
Record Quantity : Type := NewQuantity { value : Z; format : Format }.
End resource.

Module v2beta2.
End v2beta2.

Module external_metrics.
Record ExternalMetricValue (Time : Type) : Type := {
  MetricName : string;
  Value : resource.Quantity;
  Timestamp : Time;
}.
Arguments MetricName {Time} _.
Arguments Value {Time} _.
Arguments Timestamp {Time} _.
End external_metrics.

Section Scaler.

Context `{!Gjson, !elasticsearch.Client, !JSONEncoder, !MetricNaming}.

(** [metav1.Now()]: the clock is read by the caller and passed in. *)
Context {Time : Type}.

(** newElasticsearchClient creates elasticsearch db connection *)
Definition newElasticsearchClient (meta : elasticsearchMetadata)
  : elasticsearch.client + error :=
  let config :=
    {| elasticsearch.Addresses := addresses meta;
       elasticsearch.Username := username meta;
       elasticsearch.Password := password meta;
       elasticsearch.Transport :=
         if unsafeSsl meta then Some true else None |} in
  match elasticsearch.NewClient config with
  | inr err => inr err
  | inl esClient_ =>
      match elasticsearch.Info esClient_ with
      | inr err => inr err
      | inl _ => inl esClient_
      end
  end.

(** NewElasticsearchScaler creates a new elasticsearch scaler *)
Definition NewElasticsearchScaler (config : ScalerConfig)
  : elasticsearchScaler + error :=
  match parseElasticsearchMetadata config with
  | inr err => inr (Errorf "error parsing elasticsearch metadata: %s" err)
  | inl meta =>
      match newElasticsearchClient meta with
      | inr err => inr (Errorf "error getting elasticsearch client: %s" err)
      | inl esClient_ => inl {| metadata := meta; esClient := esClient_ |}
      end
  end.

(** The receiver is passed in and handed back, so that a change of the
    scaler by the call would show. *)
Definition Close (s : elasticsearchScaler)
  : elasticsearchScaler * option error :=
  (s, None).

(** getQueryResult returns result of the scaler query *)
Definition getQueryResult (s : elasticsearchScaler) : exec (Z * option error) :=
  query ← buildQuery (metadata s);
  let '(body, _) := Encode query in
  match elasticsearch.SearchTemplate (esClient s) body (indexes (metadata s)) with
  | inr err => mret (0, Some err)
  | inl res =>
      match elasticsearch.ReadAll res with
      | (_, Some err) => mret (0, Some err)
      | (b, None) =>
          match getValueFromSearch b (valueLocation (metadata s)) with
          | (_, Some err) => mret (0, Some err)
          | (v, None) => mret (v, None)
          end
      end
  end.

(** IsActive returns true if there are pending messages to be processed *)
Definition IsActive (s : elasticsearchScaler) : exec (bool * option error) :=
  r ← getQueryResult s;
  match r with
  | (_, Some err) => mret (false, Some err)
  | (messages, None) => mret (0 <? messages, None)
  end.


(** GetMetrics returns value for a supported metric and an error if there
    is a problem getting the metric *)
Definition GetMetrics (s : elasticsearchScaler) (metricName : string)
    (now : Time)
  : exec (list (external_metrics.ExternalMetricValue Time) * option error) :=
  r ← getQueryResult s;
  match r with
  | (_, Some err) => mret ([], Some (Errorf "error inspecting elasticsearch: %s" err))
  | (num, None) =>
      let metric :=
        {| external_metrics.MetricName := metricName;
           external_metrics.Value := resource.NewQuantity num resource.DecimalSI;
           external_metrics.Timestamp := now |} in
      mret ([] ++ [metric], None)
  end.

End Scaler.

(** * The vocabulary of the properties *)

(** ** Strings *)

(** [x] occurs in [s]. *)
Definition Contains (s x : string) : Prop := ∃ a b, s = a +:+ x +:+ b.

(** Every byte of [s] is in [cutset]. *)
Fixpoint allIn (s cutset : string) : bool :=
  match s with
  | "" => true
  | String c r => strings.inCutset c cutset && allIn r cutset
  end.



(** The first and the last byte of a string. *)
Definition first (s : string) : option ascii :=
  match s with
  | "" => None
  | String c _ => Some c
  end.

Fixpoint last (s : string) : option ascii :=
  match s with
  | "" => None
  | String c "" => Some c
  | String _ r => last r
  end.

(** [t] neither starts nor ends with a byte that satisfies [p]. *)
Definition trimmedOf (p : ascii → bool) (t : string) : Prop :=
  (∀ c, first t = Some c → p c = false) ∧ (∀ c, last t = Some c → p c = false).

(** The relation between a raw token and its trimmed form: a run of
    spaces is removed at each end and none is left there. *)
Definition trimsTo (t r : string) : Prop :=
  ∃ a b, t = a +:+ r +:+ b ∧ allIn a " " = true ∧ allIn b " " = true ∧
         trimmedOf (λ c, Ascii.eqb c " ") r.

(** Whitespace in the usual sense: space, tab, line feed, vertical tab,
    form feed and carriage return. *)
Definition isWhitespace (c : ascii) : bool :=
  bool_decide (c ∈ [" "; "009"; "010"; "011"; "012"; "013"]%char).

(** The number of occurrences of the byte [c] in [s]. *)
Fixpoint countByte (c : ascii) (s : string) : nat :=
  match s with
  | "" => O
  | String d r => ((if Ascii.eqb c d then 1 else 0) + countByte c r)%nat
  end.

(** ** Parameter tokens *)

(** The text before the first colon of [s], and the text after it. *)
Fixpoint beforeColon (s : string) : string :=
  match s with
  | "" => ""
  | String c r => if Ascii.eqb c ":" then "" else String c (beforeColon r)
  end.

Fixpoint afterColon (s : string) : option string :=
  match s with
  | "" => None
  | String c r => if Ascii.eqb c ":" then Some r else afterColon r
  end.

(** The key and the value [buildQuery] takes from a token: the text before
    the first colon, and the text between the first colon and the second
    (or the end), both without the spaces at their ends. *)
Definition tokenKey (p : string) : string := strings.Trim (beforeColon p) " ".

Definition tokenValue (p : string) : string :=
  strings.Trim (beforeColon (default "" (afterColon p))) " ".

(** The pairs the loop stores, in the order of the tokens. *)
Definition tokenPairs (tokens : list string) : list (string * string) :=
  (λ p, (tokenKey p, tokenValue p)) <$> filter (λ p, p ≠ "") tokens.

(** The parameter mapping of a token list: the pairs of the non-empty
    tokens, a later pair overwriting an earlier one with the same key. *)
Definition paramMapping (tokens : list string) : gmap string string :=
  list_to_map (reverse (tokenPairs tokens)).

(** The mapping as C4 words it: the value is the entire remainder after
    the first colon and nothing is trimmed. *)
Definition paramMapping_remainder (tokens : list string) : gmap string string :=
  list_to_map (reverse ((λ p, (beforeColon p, default "" (afterColon p))) <$>
                          filter (λ p, p ≠ "") tokens)).

(** A token [buildQuery] can take: empty, or with a colon in it. *)
Definition wellFormed (p : string) : Prop := p = "" ∨ Contains p ":".

(** ** Numbers and numerals *)

(** Truncation of a rational: the fraction is discarded, so the result is
    the integer next to [q] on the side of zero. *)
Definition Qtruncate (q : Q) : Z :=
  if Qle_bool 0 q then Qfloor q else Qceiling q.

(** The [float64] gjson holds for an integer literal [z] of the response:
    [strconv.ParseFloat] gives the binary64 nearest to [z], a tie going
    to the even mantissa, and an infinity beyond the largest one. *)
Definition float64_of_Z (z : Z) : float64 :=
  binary_normalize 53 1024 z 0 false.

(** What it is for a string to be a decimal numeral of an integer: an
    optional sign, then one digit or more, read in base ten. *)
Definition digitValue (c : ascii) : option Z :=
  let d := Z.of_N (N_of_ascii c) - 48 in
  if (0 <=? d) && (d <=? 9) then Some d else None.

Fixpoint numeral (s : string) (acc : Z) : option Z :=
  match s with
  | "" => Some acc
  | String c r =>
      match digitValue c with
      | Some d => numeral r (acc * 10 + d)
      | None => None
      end
  end.

Definition integerOf (s : string) : option Z :=
  match s with
  | "" => None
  | String "-" "" | String "+" "" => None
  | String "-" r => Z.opp <$> numeral r 0
  | String "+" r => numeral r 0
  | _ => numeral s 0
  end.

(** [s] parses as the integer [k]: it is a numeral of [k], and [k] is an
    [int]. *)
Definition parsesAs (s : string) (k : Z) : Prop :=
  integerOf s = Some k ∧ strconv.in_int k.

(** The kinds of located value the extractor rejects, and what its error
    cites for each: the string itself, or gjson's name of the type. *)
Definition rejected (v : located) : Prop :=
  match v with
  | JNumber _ => False
  | JString s => ¬ ∃ k, parsesAs s k
  | _ => True
  end.

Definition cited (v : located) : string :=
  match v with
  | Absent | JNull => "Null"
  | JBool true => "True"
  | JBool false => "False"
  | JNumber _ => "Number"
  | JString s => s
  | JArray | JObject => "JSON"
  end.

(** ** Credentials, metric names and teardown *)

(** A map supplies a field when it holds a non-empty value for it. *)
Definition supplies (m : gmap string string) (field : string) : Prop :=
  mapIndex m field ≠ "".


(** [n] calls of [Close] in a row: the scaler after the last one and the
    errors returned. *)
Fixpoint closeTimes `{!elasticsearch.Client} (n : nat) (s : elasticsearchScaler)
  : elasticsearchScaler * list (option error) :=
  match n with
  | O => (s, [])
  | S n' =>
      let '(s', err) := Close s in
      let '(s'', errs) := closeTimes n' s' in
      (s'', err :: errs)
  end.

(** ** Example inputs and collaborators *)

(** Metadata with the given template name and parameter tokens. *)
Definition exampleMetadata (name : string) (tokens : list string)
  : elasticsearchMetadata :=
  {| addresses := ["http://localhost:9200"]; unsafeSsl := false;
     username := ""; password := ""; indexes := ["my-index"];
     searchTemplateName := name; parameters := tokens;
     valueLocation := "hits.total.value"; targetValue := 10 |}.

(** A configuration that supplies every mandatory field through the
    trigger metadata, with the given [parameters] value. *)
Definition exampleConfig (params : string) : ScalerConfig :=
  {| TriggerMetadata :=
       {[ "addresses" := "http://localhost:9200";
          "index" := "my-index";
          "searchTemplateName" := "tpl";
          "parameters" := params;
          "valueLocation" := "hits.total.value";
          "targetValue" := "10" ]};
     AuthParams := ∅;
     ResolvedEnv := ∅ |}.

(** The configuration with its [parameters] entry replaced. *)
Definition withParameters (config : ScalerConfig) (val : string) : ScalerConfig :=
  {| TriggerMetadata := <["parameters" := val]> (TriggerMetadata config);
     AuthParams := AuthParams config;
     ResolvedEnv := ResolvedEnv config |}.

(** A configuration in which both maps supply the user name and the
    password (the trigger metadata through an environment variable). *)
Definition credentialsConfig : ScalerConfig :=
  {| TriggerMetadata :=
       {[ "addresses" := "http://localhost:9200";
          "index" := "my-index";
          "searchTemplateName" := "tpl";
          "valueLocation" := "hits.total.value";
          "targetValue" := "10";
          "username" := "bob";
          "passwordFromEnv" := "ES_PASSWORD" ]};
     AuthParams := {[ "username" := "alice"; "password" := "secret" ]};
     ResolvedEnv := {[ "ES_PASSWORD" := "other" ]} |}.

(** The result of a path that does not resolve. *)
Definition nullResult : gjson.Result :=
  gjson.mkResult gjson.Null "" "" (S754_zero false).

(** A path evaluator that knows one document and what its paths resolve
    to; any other path, or any other document, resolves to nothing. *)
Definition documentGjson (doc : string) (values : gmap string gjson.Result)
  : Gjson :=
  {| GetBytes := λ json path,
       if decide (json = doc) then default nullResult (values !! path)
       else nullResult |}.

(** [s] between double quotes. *)
Definition quoted (s : string) : string :=
  String "034" (s +:+ String "034" "").

(** A response whose [hits.total.value] is the string "abc" and whose
    [hits.total.ok] is true. *)
Definition exampleBody : string :=
  "{" +:+ quoted "hits" +:+ ":{" +:+ quoted "total" +:+ ":{" +:+
  quoted "value" +:+ ":" +:+ quoted "abc" +:+ "," +:+
  quoted "ok" +:+ ":true}}}".

Definition exampleGjson : Gjson :=
  documentGjson exampleBody
    {[ "hits.total.value" :=
         gjson.mkResult gjson.String (quoted "abc") "abc" (S754_zero false);
       "hits.total.ok" :=
         gjson.mkResult gjson.True "true" "" (S754_zero false) ]}.

(** A response whose [count] is 42 and whose [big] is 2^64, with the
    [float64] of each: 42 = 5910974510923776 * 2^-47 and
    2^64 = 4503599627370496 * 2^12. *)
Definition numberBody : string :=
  "{" +:+ quoted "count" +:+ ":42," +:+ quoted "big" +:+
  ":18446744073709551616}".

Definition numberGjson : Gjson :=
  documentGjson numberBody
    {[ "count" := gjson.mkResult gjson.Number "42" ""
                    (S754_finite false 5910974510923776 (-47));
       "big" := gjson.mkResult gjson.Number "18446744073709551616" ""
                  (S754_finite false 4503599627370496 12) ]}.

(** A response with three integer literals: 2^53 + 1, the largest [int]
    and 2^64, each with the [float64] gjson holds for it. *)
Definition literalBody : string :=
  "{" +:+ quoted "odd" +:+ ":9007199254740993," +:+ quoted "max" +:+
  ":9223372036854775807," +:+ quoted "big" +:+ ":18446744073709551616}".

Definition literalGjson : Gjson :=
  documentGjson literalBody
    {[ "odd" := gjson.mkResult gjson.Number "9007199254740993" ""
                  (float64_of_Z 9007199254740993);
       "max" := gjson.mkResult gjson.Number "9223372036854775807" ""
                  (float64_of_Z 9223372036854775807);
       "big" := gjson.mkResult gjson.Number "18446744073709551616" ""
                  (float64_of_Z 18446744073709551616) ]}.

(** A search engine that is reachable and answers every search with the
    same reply. *)
Definition cannedEngine (reply : string + error) : elasticsearch.Client :=
  {| elasticsearch.client := unit;
     elasticsearch.Response := string;
     elasticsearch.NewClient := λ _, inl ();
     elasticsearch.Info := λ _, inl "";
     elasticsearch.SearchTemplate := λ _ _ _, reply;
     elasticsearch.ReadAll := λ res, (res, None) |}.

(** An encoder that writes nothing; the engines above do not read the
    request. *)
Definition emptyEncoder : JSONEncoder := {| Encode := λ _, ("", None) |}.


(** A configuration without a template name. *)
Definition noTemplateConfig : ScalerConfig :=
  {| TriggerMetadata :=
       {[ "addresses" := "http://localhost:9200";
          "index" := "my-index";
          "valueLocation" := "hits.total.value";
          "targetValue" := "ten" ]};
     AuthParams := ∅;
     ResolvedEnv := ∅ |}.

(** * Properties *)

(** ** Strings *)

Section StringFacts.

Implicit Types s t sep x y : string.

#[local] Arguments String.append !_ _ /.

Lemma string_app_nil_r s : s +:+ "" = s.
Proof. induction s as [|c r IH]; simpl; [done | by rewrite IH]. Qed.

Lemma string_app_assoc s t x : (s +:+ t) +:+ x = s +:+ t +:+ x.
Proof. induction s as [|c r IH]; simpl; [done | by rewrite IH]. Qed.

Lemma string_app_length s t :
  String.length (s +:+ t) = (String.length s + String.length t)%nat.
Proof. induction s as [|c r IH]; simpl; [done | by rewrite IH]. Qed.

Lemma take_drop n s : strings.take n s +:+ strings.drop n s = s.
Proof.
  revert s; induction n as [|n IH]; intros [|c r]; simpl; try done.
  by rewrite IH.
Qed.

Lemma drop_length n s :
  String.length (strings.drop n s) = (String.length s - n)%nat.
Proof.
  revert s; induction n as [|n IH]; intros [|c r]; simpl; try done.
Qed.

Lemma CutPrefix_Some s p r : strings.CutPrefix s p = Some r ↔ s = p +:+ r.
Proof.
  revert s; induction p as [|a p IH]; intros s; simpl.
  - split; [by intros [= ->] | by intros ->].
  - destruct s as [|b s]; [split; discriminate |].
    destruct (Ascii.eqb_spec a b) as [->|Hne].
    + rewrite IH. split; [by intros -> | by intros [= ->]].
    + split; [discriminate | intros [= ? ?]; congruence].
Qed.

Lemma Cut_Some s sep b a :
  strings.Cut s sep = Some (b, a) → s = b +:+ sep +:+ a.
Proof.
  revert b; induction s as [|c r IH]; intros b; simpl.
  - destruct (strings.CutPrefix "" sep) eqn:E; [|discriminate].
    intros [= <- <-]. by apply CutPrefix_Some in E.
  - destruct (strings.CutPrefix (String c r) sep) eqn:E.
    + intros [= <- <-]. by apply CutPrefix_Some in E.
    + destruct (strings.Cut r sep) as [[b' a']|] eqn:E'; [|discriminate].
      intros [= <- <-]. simpl. f_equal. by apply IH.
Qed.

Lemma CutPrefix_None_cons c r sep x y :
  strings.CutPrefix (String c r) sep = None →
  String c r = x +:+ sep +:+ y → ∃ x', x = String c x' ∧ r = x' +:+ sep +:+ y.
Proof.
  intros E Heq. destruct x as [|c' x'].
  - simpl in Heq. apply CutPrefix_Some in Heq. congruence.
  - simpl in Heq. injection Heq as -> ->. eauto.
Qed.

(** The text before the first separator holds no separator. *)
Lemma Cut_before s sep b a :
  sep ≠ "" → strings.Cut s sep = Some (b, a) → ¬ Contains b sep.
Proof.
  intros Hsep. revert b; induction s as [|c r IH]; intros b; simpl.
  - destruct (strings.CutPrefix "" sep) eqn:E; [|discriminate].
    intros [= <- <-] (x & y & Hxy).
    destruct x; [destruct sep; [done | discriminate] | discriminate].
  - destruct (strings.CutPrefix (String c r) sep) eqn:E.
    + intros [= <- <-] (x & y & Hxy).
      destruct x; [destruct sep; [done | discriminate] | discriminate].
    + destruct (strings.Cut r sep) as [[b' a']|] eqn:E'; [|discriminate].
      intros [= <- <-] (x & y & Hxy).
      assert (String c r = x +:+ sep +:+ (y +:+ sep +:+ a')) as Hs.
      { apply Cut_Some in E'. rewrite E'. 
        change (String c (b' +:+ sep +:+ a')) with (String c b' +:+ sep +:+ a').
        rewrite Hxy. by rewrite !string_app_assoc. }
      destruct (CutPrefix_None_cons _ _ _ _ _ E Hs) as (x' & -> & _).
      simpl in Hxy. injection Hxy as Hxy.
      apply (IH b' eq_refl). by exists x', y.
Qed.

Lemma Cut_None s sep : strings.Cut s sep = None → ¬ Contains s sep.
Proof.
  induction s as [|c r IH]; simpl.
  - destruct (strings.CutPrefix "" sep) eqn:E; [discriminate|].
    intros _ (x & y & Hxy). destruct x; [|discriminate].
    simpl in Hxy. apply CutPrefix_Some in Hxy. congruence.
  - destruct (strings.CutPrefix (String c r) sep) eqn:E; [discriminate|].
    destruct (strings.Cut r sep) as [[b' a']|] eqn:E'; [discriminate|].
    intros _ (x & y & Hxy).
    destruct (CutPrefix_None_cons _ _ _ _ _ E Hxy) as (x' & -> & Hr).
    apply IH; [done | by exists x', y].
Qed.

Lemma Contains_Cut s sep : Contains s sep → is_Some (strings.Cut s sep).
Proof.
  intros H. destruct (strings.Cut s sep) eqn:E; [done|].
  by apply Cut_None in E.
Qed.

Lemma Cut_shorter s sep b a :
  sep ≠ "" → strings.Cut s sep = Some (b, a) →
  (String.length a < String.length s)%nat.
Proof.
  intros Hsep E. apply Cut_Some in E. subst s.
  rewrite !string_app_length. destruct sep; [done | simpl; lia].
Qed.

Lemma Join_cons x l sep :
  l ≠ [] → strings.Join (x :: l) sep = x +:+ sep +:+ strings.Join l sep.
Proof. by destruct l. Qed.

Lemma Join_cons_empty x l :
  strings.Join (x :: l) "" = x +:+ strings.Join l "".
Proof. destruct l; simpl; [by rewrite string_app_nil_r | done]. Qed.

Lemma genSplit_nonempty n s sep : strings.genSplit n s sep ≠ [].
Proof.
  destruct n; simpl; [done|].
  by destruct (strings.Cut s sep) as [[??]|].
Qed.

(** With enough fuel the loop returns the pieces between the separators:
    joining them gives the string back, and no piece holds a separator. *)
Lemma genSplit_spec n s sep :
  sep ≠ "" → (String.length s ≤ n)%nat →
  strings.Join (strings.genSplit n s sep) sep = s ∧
  Forall (λ t, ¬ Contains t sep) (strings.genSplit n s sep).
Proof.
  intros Hsep. revert s; induction n as [|n IH]; intros s Hn; simpl.
  - destruct s; [|simpl in Hn; lia]. split; [done|].
    constructor; [|done]. intros (x & y & Hxy).
    destruct x; [destruct sep; [done | discriminate] | discriminate].
  - destruct (strings.Cut s sep) as [[b a]|] eqn:E.
    + pose proof (Cut_shorter _ _ _ _ Hsep E).
      destruct (IH a) as [HJ HF]; [lia|].
      split.
      * rewrite Join_cons by apply genSplit_nonempty.
        rewrite HJ. symmetry. by apply Cut_Some.
      * constructor; [by eapply Cut_before | done].
    + split; [done|]. constructor; [by apply Cut_None | done].
Qed.

Lemma utf8_size_pos c r : (1 ≤ strings.utf8_size (String c r))%nat.
Proof.
  unfold strings.utf8_size, strings.utf8_follow.
  repeat case_match; lia.
Qed.

Lemma explode_loop_spec n s :
  (String.length s ≤ n)%nat → strings.Join (strings.explode_loop n s) "" = s.
Proof.
  revert s; induction n as [|n IH]; intros s Hn.
  - destruct s; [done | simpl in Hn; lia].
  - destruct s as [|c r]; [done|].
    cbn [strings.explode_loop]. rewrite Join_cons_empty, IH.
    + apply take_drop.
    + rewrite drop_length. pose proof (utf8_size_pos c r). simpl in *. lia.
Qed.

(** [Split] is the inverse of [Join]. *)
Lemma Split_Join s sep : strings.Join (strings.Split s sep) sep = s.
Proof.
  unfold strings.Split. destruct sep as [|c sep'].
  - by apply explode_loop_spec.
  - by apply genSplit_spec.
Qed.

Lemma Split_no_sep s sep :
  sep ≠ "" → Forall (λ t, ¬ Contains t sep) (strings.Split s sep).
Proof.
  intros Hsep. unfold strings.Split. destruct sep as [|c sep']; [done|].
  by apply genSplit_spec.
Qed.

Lemma last_cons c r : r ≠ "" → last (String c r) = last r.
Proof. by destruct r. Qed.

Lemma TrimRight_spec s cutset :
  ∃ b, s = strings.TrimRight s cutset +:+ b ∧ allIn b cutset = true ∧
       ∀ c, last (strings.TrimRight s cutset) = Some c →
            strings.inCutset c cutset = false.
Proof.
  induction s as [|c r (b & Hr & Hb & Hlast)]; [by exists ""|].
  cbn [strings.TrimRight].
  destruct (strings.TrimRight r cutset) as [|c' r'] eqn:E.
  - destruct (strings.inCutset c cutset) eqn:Hc.
    + exists (String c b). simpl in *. rewrite Hc, Hb. by subst r.
    + exists b. simpl in *. split_and!; [by subst r | done |].
      by intros ? [= <-].
  - exists b. split_and!; [simpl; by rewrite Hr at 1 | done |].
    by rewrite last_cons.
Qed.

Lemma TrimLeft_spec s cutset :
  ∃ a, s = a +:+ strings.TrimLeft s cutset ∧ allIn a cutset = true ∧
       (∀ c, first (strings.TrimLeft s cutset) = Some c →
             strings.inCutset c cutset = false) ∧
       (∀ c, last (strings.TrimLeft s cutset) = Some c → last s = Some c).
Proof.
  induction s as [|c r (a & Hr & Ha & Hfirst & Hlast)]; [by exists ""|].
  cbn [strings.TrimLeft]. destruct (strings.inCutset c cutset) eqn:Hc.
  - exists (String c a). simpl. rewrite Hc, Ha. split_and!; try done.
    + by rewrite Hr at 1.
    + intros c' Hc'. destruct r as [|c2 r2]; [done | by apply Hlast].
  - exists "". split_and!; try done. by intros ? [= <-].
Qed.

(** [Trim] strips a run of cutset bytes from each end and leaves a string
    with no cutset byte at either end. *)
Lemma Trim_spec t cutset :
  ∃ a b, t = a +:+ strings.Trim t cutset +:+ b ∧
         allIn a cutset = true ∧ allIn b cutset = true ∧
         trimmedOf (λ c, strings.inCutset c cutset) (strings.Trim t cutset).
Proof.
  unfold strings.Trim.
  destruct (TrimRight_spec t cutset) as (b & Ht & Hb & Hlast).
  destruct (TrimLeft_spec (strings.TrimRight t cutset) cutset)
    as (a & Hr & Ha & Hfirst & Hlast').
  exists a, b. split_and!; try done.
  - rewrite <- string_app_assoc, <- Hr. done.
  - split; [done|]. intros c Hc. by apply Hlast, Hlast'.
Qed.

End StringFacts.

(** ** C8: the splitting rule *)

Lemma Trim_space_trimsTo t : trimsTo t (strings.Trim t " ").
Proof.
  destruct (Trim_spec t " ") as (a & b & Ht & Ha & Hb & [Hf Hl]).
  exists a, b. split_and!; try done.
  split; intros c Hc; [apply Hf in Hc | apply Hl in Hc];
    simpl in Hc; by rewrite orb_false_r in Hc.
Qed.

(** C8 (amended): for every string and separator, [splitAndTrimBySep]
    returns, in order and one for one, the separator-delimited tokens
    (joining them with the separator gives the input back and, for a
    non-empty separator, no token holds it), each with the space
    characters U+0020 at its ends removed; empty tokens keep their place,
    and other whitespace such as a tab is kept. "  a ; b;c  " split on ";"
    yields "a", "b", "c". *)
Theorem splitAndTrimBySep_spec :
  (∀ s sep, ∃ tokens,
      strings.Join tokens sep = s ∧
      (sep ≠ "" → Forall (λ t, ¬ Contains t sep) tokens) ∧
      Forall2 trimsTo tokens (splitAndTrimBySep s sep)) ∧
  splitAndTrimBySep "  a ; b;c  " ";" = ["a"; "b"; "c"] ∧
  splitAndTrimBySep "a;;b; " ";" = ["a"; ""; "b"; ""].
Proof.
  split; [|by vm_compute].
  intros s sep. exists (strings.Split s sep). split_and!.
  - apply Split_Join.
  - intros Hsep. by apply Split_no_sep.
  - unfold splitAndTrimBySep. cbv zeta.
    induction (strings.Split s sep) as [|t l IH]; constructor; [|done].
    apply Trim_space_trimsTo.
Qed.

(** C8 as stated fails: a token that ends with a tab keeps it. *)
Lemma splitAndTrimBySep_keeps_tab :
  splitAndTrimBySep (String "a" (String "009" ";b")) ";"
    = [String "a" (String "009" ""); "b"] ∧
  ¬ Forall (trimmedOf isWhitespace)
      (splitAndTrimBySep (String "a" (String "009" ";b")) ";").
Proof.
  split; [by vm_compute|].
  intros H. apply Forall_cons_1 in H as [[_ Hlast] _].
  by specialize (Hlast "009"%char eq_refl).
Qed.

(** ** C4 and C5: the query builder *)

Section QueryBuilder.

Implicit Types p s : string.

Lemma Cut_colon s :
  strings.Cut s ":" =
    match afterColon s with
    | Some r => Some (beforeColon s, r)
    | None => None
    end.
Proof.
  induction s as [|c r IH]; [done|].
  cbn [strings.Cut afterColon beforeColon strings.CutPrefix].
  rewrite (Ascii.eqb_sym ":" c).
  destruct (Ascii.eqb c ":"); [done|].
  rewrite IH. by destruct (afterColon r).
Qed.

Lemma Contains_colon s : Contains s ":" ↔ is_Some (afterColon s).
Proof.
  split.
  - intros H. apply Contains_Cut in H. rewrite Cut_colon in H.
    destruct (afterColon s); [done | by destruct H].
  - intros [r Hr]. exists (beforeColon s), r.
    apply Cut_Some. by rewrite Cut_colon, Hr.
Qed.

Lemma genSplit_fuel n m s sep :
  sep ≠ "" → (String.length s ≤ n)%nat → (String.length s ≤ m)%nat →
  strings.genSplit n s sep = strings.genSplit m s sep.
Proof.
  intros Hsep. revert m s; induction n as [|n IH]; intros [|m] s Hn Hm;
    simpl; try done.
  - destruct (strings.Cut s sep) as [[b a]|] eqn:E; [|done].
    apply Cut_shorter in E; [lia | done].
  - destruct (strings.Cut s sep) as [[b a]|] eqn:E; [|done].
    apply Cut_shorter in E; [lia | done].
  - destruct (strings.Cut s sep) as [[b a]|] eqn:E; [|done].
    pose proof (Cut_shorter _ _ _ _ Hsep E). f_equal. apply IH; lia.
Qed.

(** The loop of [Split], unrolled once: the fuel never runs out. *)
Lemma Split_unfold s sep :
  sep ≠ "" →
  strings.Split s sep =
    match strings.Cut s sep with
    | Some (b, a) => b :: strings.Split a sep
    | None => [s]
    end.
Proof.
  intros Hsep. unfold strings.Split. destruct sep as [|c sep']; [done|].
  destruct (String.length s) as [|n] eqn:Hlen; simpl.
  - destruct (strings.Cut s _) as [[b a]|] eqn:E; [|done].
    apply Cut_shorter in E; [lia | done].
  - destruct (strings.Cut s _) as [[b a]|] eqn:E; [|done].
    pose proof (Cut_shorter _ _ _ _ Hsep E). f_equal.
    apply genSplit_fuel; [done | lia | lia].
Qed.

Lemma beforeColon_None s : afterColon s = None → beforeColon s = s.
Proof.
  induction s as [|c r IH]; [done|]. simpl.
  destruct (Ascii.eqb c ":"); [done|]. intros E. by rewrite IH.
Qed.

Lemma Split_colon s :
  strings.Split s ":" =
    beforeColon s ::
      match afterColon s with
      | Some r => strings.Split r ":"
      | None => []
      end.
Proof.
  rewrite Split_unfold, Cut_colon by done.
  destruct (afterColon s) eqn:E; [done|]. by rewrite beforeColon_None.
Qed.

Lemma setParameter_empty (m : gmap string string) : setParameter m "" = Return m.
Proof. done. Qed.

Lemma setParameter_colon (m : gmap string string) p :
  p ≠ "" → Contains p ":" →
  setParameter m p = Return (<[tokenKey p := tokenValue p]> m).
Proof.
  intros Hp [r Hr]%Contains_colon. unfold setParameter, tokenValue.
  rewrite decide_True by done. unfold splitAndTrimBySep. cbv zeta.
  rewrite Split_colon, Hr, (Split_colon r). done.
Qed.

Lemma setParameter_no_colon (m : gmap string string) p :
  p ≠ "" → ¬ Contains p ":" →
  setParameter m p = Panic (indexOutOfRange 1 1).
Proof.
  intros Hp Hc. unfold setParameter.
  rewrite decide_True by done. unfold splitAndTrimBySep. cbv zeta.
  rewrite Split_colon. destruct (afterColon p) eqn:E; [|done].
  destruct Hc. apply Contains_colon. by rewrite E.
Qed.

Lemma wellFormed_dec p : wellFormed p ∨ (p ≠ "" ∧ ¬ Contains p ":").
Proof.
  unfold wellFormed. destruct (decide (p = "")) as [|Hp]; [by left; left|].
  destruct (afterColon p) eqn:E.
  - left; right. apply Contains_colon. by rewrite E.
  - right. split; [done|]. intros [? H]%Contains_colon. congruence.
Qed.

Lemma rangeLoop_wellFormed tokens (acc : gmap string string) :
  Forall wellFormed tokens →
  rangeLoop setParameter tokens acc =
    Return (foldl (λ m kv, <[kv.1 := kv.2]> m) acc (tokenPairs tokens)).
Proof.
  intros H. revert acc. induction H as [|p tokens [->|Hp] _ IH]; intros acc.
  - done.
  - cbn [rangeLoop]. rewrite setParameter_empty. apply IH.
  - destruct (decide (p = "")) as [->|Hne].
    + cbn [rangeLoop]. rewrite setParameter_empty. apply IH.
    + cbn [rangeLoop]. rewrite setParameter_colon by done.
      unfold tokenPairs. rewrite filter_cons_True by done.
      rewrite fmap_cons. cbn [foldl mbind exec_bind]. apply IH.
Qed.

Lemma rangeLoop_malformed tokens (acc : gmap string string) :
  ¬ Forall wellFormed tokens →
  rangeLoop setParameter tokens acc = Panic (indexOutOfRange 1 1).
Proof.
  revert acc. induction tokens as [|p tokens IH]; intros acc H.
  - by destruct H.
  - cbn [rangeLoop]. destruct (wellFormed_dec p) as [Hw|[Hp Hc]].
    + assert (¬ Forall wellFormed tokens) as Hrest.
      { intros ?. apply H. by constructor. }
      destruct Hw as [->|Hc].
      * rewrite setParameter_empty. by apply IH.
      * destruct (decide (p = "")) as [->|Hne].
        -- rewrite setParameter_empty. by apply IH.
        -- rewrite setParameter_colon by done. by apply IH.
    + by rewrite setParameter_no_colon.
Qed.

Lemma foldl_insert (l : list (string * string)) (acc : gmap string string) :
  foldl (λ m kv, <[kv.1 := kv.2]> m) acc l = list_to_map (reverse l) ∪ acc.
Proof.
  revert acc. induction l as [|[k v] l IH]; intros acc.
  - simpl. by rewrite (left_id_L ∅ (∪)).
  - cbn [foldl]. rewrite IH, reverse_cons, list_to_map_app. simpl.
    rewrite insert_empty, <- (assoc_L (∪)).
    by rewrite <- insert_union_singleton_l.
Qed.

Lemma rangeLoop_paramMapping tokens :
  Forall wellFormed tokens →
  rangeLoop setParameter tokens ∅ = Return (paramMapping tokens).
Proof.
  intros H. rewrite rangeLoop_wellFormed by done.
  by rewrite foldl_insert, (right_id_L ∅ (∪)).
Qed.

Lemma tokenPairs_app l1 l2 : tokenPairs (l1 ++ l2) = tokenPairs l1 ++ tokenPairs l2.
Proof. unfold tokenPairs. by rewrite filter_app, fmap_app. Qed.

Lemma tokenPairs_keys tokens k :
  Forall (λ q, q = "" ∨ tokenKey q ≠ k) tokens → k ∉ (tokenPairs tokens).*1.
Proof.
  induction 1 as [|q tokens Hq _ IH]; [by apply not_elem_of_nil|].
  unfold tokenPairs. destruct (decide (q = "")) as [->|Hne].
  - by rewrite filter_cons_False by (by intros ?).
  - rewrite filter_cons_True by done. rewrite !fmap_cons. cbn [fst].
    apply not_elem_of_cons. split; [|done].
    destruct Hq as [?|?]; [done | by intros ->].
Qed.

(** A later token overwrites an earlier one with the same key: the value
    of a key is the one of the last non-empty token that has it. *)
Lemma paramMapping_last before p after :
  p ≠ "" → Forall (λ q, q = "" ∨ tokenKey q ≠ tokenKey p) after →
  paramMapping (before ++ p :: after) !! tokenKey p = Some (tokenValue p).
Proof.
  intros Hp Hafter. unfold paramMapping. fold (tokenPairs (before ++ p :: after)).
  rewrite tokenPairs_app.
  change (p :: after) with ([p] ++ after).
  rewrite (tokenPairs_app [p] after), !reverse_app.
  rewrite !list_to_map_app, <- (assoc_L (∪)).
  rewrite lookup_union_r.
  - unfold tokenPairs at 1. rewrite filter_cons_True, filter_nil by done.
    simpl. rewrite insert_empty, <- insert_union_singleton_l.
    apply lookup_insert_eq.
  - apply not_elem_of_list_to_map_1. rewrite fmap_reverse, elem_of_reverse.
    by apply tokenPairs_keys.
Qed.

Lemma paramMapping_None tokens k :
  Forall (λ q, q = "" ∨ tokenKey q ≠ k) tokens → paramMapping tokens !! k = None.
Proof.
  intros H. apply not_elem_of_list_to_map_1.
  rewrite fmap_reverse, elem_of_reverse. by apply tokenPairs_keys.
Qed.

(** With well-formed tokens the loop ends and the document is built from
    the parameter mapping. *)
Lemma buildQuery_wellFormed metadata :
  Forall wellFormed (parameters metadata) →
  buildQuery metadata =
    Return (let query : gmap string queryValue :=
              {[ "id" := qString (searchTemplateName metadata) ]} in
            if (0 <? size (paramMapping (parameters metadata)))%nat
            then <["params" := qParams (paramMapping (parameters metadata))]> query
            else query).
Proof.
  intros H. unfold buildQuery. rewrite rangeLoop_paramMapping by done.
  cbn [mbind exec_bind]. by case_match.
Qed.

Lemma buildQuery_malformed metadata :
  ¬ Forall wellFormed (parameters metadata) →
  buildQuery metadata = Panic (indexOutOfRange 1 1).
Proof. intros H. unfold buildQuery. by rewrite rangeLoop_malformed. Qed.

End QueryBuilder.

(** C4 (amended): when every non-empty parameter token holds a colon,
    [buildQuery] returns a document whose [id] is the template name, that
    has no field besides [id] and [params], and whose [params] is present
    exactly when the parameter mapping is not empty. The mapping skips the
    empty tokens; the key of a token is the text before its first colon and
    the value the text between the first colon and the second one (or the
    end of the token), both with the spaces at their ends removed; a later
    token overwrites an earlier one with the same key. Without parameters
    the document is just the [id]; the single token "a:b" gives the
    parameter [a] with the value "b". *)
Theorem buildQuery_spec (metadata : elasticsearchMetadata) :
  Forall wellFormed (parameters metadata) →
  (parameters metadata = [] →
   buildQuery metadata =
     Return {[ "id" := qString (searchTemplateName metadata) ]}) ∧
  (parameters metadata = ["a:b"] →
   buildQuery metadata =
     Return (<["params" := qParams {[ "a" := "b" ]}]>
               {[ "id" := qString (searchTemplateName metadata) ]})) ∧
  ∃ query : gmap string queryValue,
    buildQuery metadata = Return query ∧
    query !! "id" = Some (qString (searchTemplateName metadata)) ∧
    query !! "params" =
      (if decide (paramMapping (parameters metadata) = ∅) then None
       else Some (qParams (paramMapping (parameters metadata)))) ∧
    (∀ k, k ≠ "id" → k ≠ "params" → query !! k = None) ∧
    (∀ before p after,
        parameters metadata = before ++ p :: after → p ≠ "" →
        Forall (λ q, q = "" ∨ tokenKey q ≠ tokenKey p) after →
        paramMapping (parameters metadata) !! tokenKey p = Some (tokenValue p)) ∧
    (∀ k, Forall (λ q, q = "" ∨ tokenKey q ≠ k) (parameters metadata) →
          paramMapping (parameters metadata) !! k = None).
Proof.
  intros H. rewrite buildQuery_wellFormed by done. cbv zeta.
  split; [by intros ->|]. split; [by intros ->|].
  assert (∀ before p after,
        parameters metadata = before ++ p :: after → p ≠ "" →
        Forall (λ q, q = "" ∨ tokenKey q ≠ tokenKey p) after →
        paramMapping (parameters metadata) !! tokenKey p = Some (tokenValue p))
    as Hlast.
  { intros before p after -> Hp Hafter. by apply paramMapping_last. }
  pose proof (paramMapping_None (parameters metadata)) as Hnone.
  destruct (decide (paramMapping (parameters metadata) = ∅)) as [He|Hne].
  - exists {[ "id" := qString (searchTemplateName metadata) ]}.
    split_and!; try done.
    + by rewrite He, map_size_empty.
    + intros k Hk _. by rewrite lookup_singleton_ne.
  - exists (<["params" := qParams (paramMapping (parameters metadata))]>
              {[ "id" := qString (searchTemplateName metadata) ]}).
    split_and!; try done.
    + apply map_size_non_empty_iff in Hne.
      assert ((0 <? size (paramMapping (parameters metadata)))%nat = true)
        as ->; [|done].
      apply Nat.ltb_lt. lia.
    + intros k Hk Hk'. rewrite lookup_insert_ne by done.
      by rewrite lookup_singleton_ne.
Qed.

(** The tokens "a:b", "", "a : c:d" and "x:" give [a] the value "c" and
    [x] the empty value. *)
Lemma buildQuery_spec_witness :
  Forall wellFormed ["a:b"; ""; "a : c:d"; "x:"] ∧
  ∃ query : gmap string queryValue,
    buildQuery (exampleMetadata "tpl" ["a:b"; ""; "a : c:d"; "x:"]) = Return query ∧
    query !! "id" = Some (qString "tpl") ∧
    query !! "params" = Some (qParams {[ "a" := "c"; "x" := "" ]}).
Proof.
  assert (Forall wellFormed ["a:b"; ""; "a : c:d"; "x:"]) as H.
  { repeat apply Forall_cons_2; try apply Forall_nil_2; try (by left);
      right; apply Contains_colon; vm_compute; eauto. }
  split; [exact H|].
  destruct (buildQuery_spec (exampleMetadata "tpl" ["a:b"; ""; "a : c:d"; "x:"]) H)
    as (_ & _ & query & Hq & Hid & Hparams & _).
  exists query. split_and!; [done | done |].
  rewrite Hparams. by vm_compute.
Defined.

(** C4 as stated fails: the value is not the entire remainder after the
    first colon. The token "a:b:c" gives [a] the value "b", not "b:c". *)
Lemma buildQuery_drops_after_second_colon :
  buildQuery (exampleMetadata "tpl" ["a:b:c"]) =
    Return (<["params" := qParams {[ "a" := "b" ]}]> {[ "id" := qString "tpl" ]}) ∧
  paramMapping_remainder ["a:b:c"] = {[ "a" := "b:c" ]} ∧
  buildQuery (exampleMetadata "tpl" ["a:b:c"]) ≠
    Return (<["params" := qParams (paramMapping_remainder ["a:b:c"])]>
              {[ "id" := qString "tpl" ]}).
Proof.
  split_and!; [by vm_compute | by vm_compute |].
  by vm_compute.
Qed.

Lemma parse_exampleConfig_foo :
  parseElasticsearchMetadata (exampleConfig "foo") =
    inl (exampleMetadata "tpl" ["foo"]).
Proof. by vm_compute. Qed.

(** Construction never looks into the parameter tokens: they are stored as
    split. *)
Lemma parse_parameters config meta :
  parseElasticsearchMetadata config = inl meta →
  parameters meta =
    match TriggerMetadata config !! "parameters" with
    | Some val => splitAndTrimBySep val ";"
    | None => []
    end.
Proof.
  unfold parseElasticsearchMetadata.
  repeat (case_match; try discriminate); by intros [= <-].
Qed.

Lemma GetFromAuthOrMeta_withParameters config val field :
  field ≠ "parameters" →
  GetFromAuthOrMeta (withParameters config val) field
    = GetFromAuthOrMeta config field.
Proof.
  intros Hne. unfold GetFromAuthOrMeta, mapIndex. simpl.
  by rewrite lookup_insert_ne.
Qed.

(** Whatever the parameter tokens are, construction accepts them when it
    accepts the rest of the configuration. *)
Lemma parse_withParameters config val meta :
  parseElasticsearchMetadata config = inl meta →
  parseElasticsearchMetadata (withParameters config val) =
    inl {| addresses := addresses meta; unsafeSsl := unsafeSsl meta;
           username := username meta; password := password meta;
           indexes := indexes meta;
           searchTemplateName := searchTemplateName meta;
           parameters := splitAndTrimBySep val ";";
           valueLocation := valueLocation meta;
           targetValue := targetValue meta |}.
Proof.
  unfold parseElasticsearchMetadata.
  rewrite !GetFromAuthOrMeta_withParameters by done.
  unfold mapIndex. cbn [TriggerMetadata AuthParams ResolvedEnv withParameters].
  rewrite lookup_insert_eq, !lookup_insert_ne by done.
  repeat (case_match; try discriminate); by intros [= <-].
Qed.

Lemma tokens_dec tokens :
  Forall wellFormed tokens ∨
  Exists (λ p, p ≠ "" ∧ ¬ Contains p ":") tokens.
Proof.
  induction tokens as [|p tokens [IH|IH]].
  - by left.
  - destruct (wellFormed_dec p); [left; by constructor | right; by left].
  - right. by right.
Qed.

Lemma malformed_not_wellFormed tokens :
  Exists (λ p, p ≠ "" ∧ ¬ Contains p ":") tokens → ¬ Forall wellFormed tokens.
Proof.
  intros Hex Hall. apply Exists_exists in Hex as (p & Hin & Hp & Hc).
  rewrite Forall_forall in Hall. by destruct (Hall p Hin).
Qed.

(** C5: [buildQuery] returns exactly when every non-empty parameter token
    holds a colon; otherwise it panics, and the panic is the access to
    index 1 of a split of length 1 (index 0 is always in bounds).
    Construction stores the tokens as they are split, without a check (a
    configuration it accepts is still accepted with any other [parameters]
    value), and there is a configuration it accepts whose query cannot be
    built. *)
Theorem buildQuery_index_in_bounds :
  (∀ metadata,
      (∃ query, buildQuery metadata = Return query) ↔
      Forall wellFormed (parameters metadata)) ∧
  (∀ metadata e,
      buildQuery metadata = Panic e →
      e = indexOutOfRange 1 1 ∧
      Exists (λ p, p ≠ "" ∧ ¬ Contains p ":") (parameters metadata)) ∧
  (∀ config meta,
      parseElasticsearchMetadata config = inl meta →
      parameters meta =
        match TriggerMetadata config !! "parameters" with
        | Some val => splitAndTrimBySep val ";"
        | None => []
        end) ∧
  (∀ config meta val,
      parseElasticsearchMetadata config = inl meta →
      ∃ meta', parseElasticsearchMetadata (withParameters config val) = inl meta' ∧
               parameters meta' = splitAndTrimBySep val ";") ∧
  (∃ config meta,
      parseElasticsearchMetadata config = inl meta ∧
      buildQuery meta = Panic (indexOutOfRange 1 1)).
Proof.
  pose proof buildQuery_malformed as Hpanic.
  split_and!.
  - intros metadata. split.
    + intros [query Hq].
      destruct (tokens_dec (parameters metadata)) as [|Hex]; [done|].
      rewrite Hpanic in Hq; [done | by apply malformed_not_wellFormed].
    + intros H. rewrite buildQuery_wellFormed by done. eauto.
  - intros metadata e He.
    destruct (tokens_dec (parameters metadata)) as [Hall|Hex].
    + rewrite buildQuery_wellFormed in He by done. discriminate.
    + split; [|done].
      rewrite Hpanic in He; [congruence | by apply malformed_not_wellFormed].
  - apply parse_parameters.
  - intros config meta val Hparse. eexists.
    split; [by apply parse_withParameters | done].
  - exists (exampleConfig "foo"), (exampleMetadata "tpl" ["foo"]).
    split; [apply parse_exampleConfig_foo | by vm_compute].
Qed.

(** ** C1 and C2: the value extractor *)

Lemma pow2_pos (e : Z) : e < 0 → Z.pos (2 ^ Z.to_pos (- e)) = 2 ^ (- e).
Proof.
  intros He. rewrite Pos2Z.inj_pow, Z2Pos.id by lia. done.
Qed.

Lemma Qtruncate_nonneg (a : Z) (d : positive) :
  0 ≤ a → Qtruncate (a # d) = a `div` Z.pos d.
Proof.
  intros Ha. unfold Qtruncate.
  assert (Qle_bool 0 (a # d) = true) as ->; [|done].
  apply Qle_bool_iff. unfold Qle. simpl. lia.
Qed.

Lemma Qtruncate_opp (a : Z) (d : positive) :
  0 < a → Qtruncate (Qopp (a # d)) = - (a `div` Z.pos d).
Proof.
  intros Ha. unfold Qtruncate.
  destruct (Qle_bool 0 (Qopp (a # d))) eqn:E.
  - apply Qle_bool_iff in E. unfold Qle in E. simpl in E. lia.
  - unfold Qceiling, Qfloor. simpl. by rewrite Z.opp_involutive.
Qed.

(** The conversion of a finite [float64] whose truncation fits [int] is
    that truncation. *)
Lemma int_of_float64_truncate (n : float64) (q : Q) :
  float64_value n = Some q → strconv.in_int (Qtruncate q) →
  int_of_float64 n = Qtruncate q.
Proof.
  unfold strconv.in_int.
  destruct n as [s| | |s m e]; try discriminate; simpl.
  - by intros [= <-].
  - assert (∀ v, strconv.minInt ≤ v ≤ strconv.maxInt →
              (if (strconv.minInt <=? v) && (v <=? strconv.maxInt)
               then v else strconv.minInt) = v) as Hrange.
    { intros v [??]. rewrite andb_true_intro; [done|]. split; lia. }
    intros [= <-].
    destruct (Z.leb_spec 0 e) as [He|He].
    + assert (0 < Z.pos m * 2 ^ e) as Hpos by (apply Z.mul_pos_pos; lia).
      unfold inject_Z.
      destruct s; [rewrite Qtruncate_opp by lia | rewrite Qtruncate_nonneg by lia];
        rewrite Z.div_1_r; apply Hrange.
    + destruct s; [rewrite Qtruncate_opp by lia | rewrite Qtruncate_nonneg by lia];
        rewrite pow2_pos by done; apply Hrange.
Qed.

Lemma digitValue_range c d : digitValue c = Some d → 0 ≤ d ≤ 9.
Proof. unfold digitValue. case_match; [|done]. intros [= <-]. lia. Qed.

Lemma numeral_ge s n v : 0 ≤ n → numeral s n = Some v → n ≤ v.
Proof.
  revert n; induction s as [|c r IH]; intros n Hn; simpl.
  - intros [= <-]. lia.
  - destruct (digitValue c) as [d|] eqn:Hd; [|done].
    apply digitValue_range in Hd. intros Hv. apply IH in Hv; lia.
Qed.

(** The digit loop against the numeral it reads: it fails on a string
    that is no numeral or whose value exceeds 64 bits, and returns the
    value otherwise. *)
Lemma ParseUint_loop_spec s n :
  0 ≤ n ≤ strconv.maxUint64 →
  match numeral s n with
  | Some v =>
      strconv.ParseUint_loop s n =
        if v <=? strconv.maxUint64 then (v, None)
        else (strconv.maxUint64, Some true)
  | None =>
      strconv.ParseUint_loop s n = (0, Some false) ∨
      strconv.ParseUint_loop s n = (strconv.maxUint64, Some true)
  end.
Proof.
  revert n; induction s as [|c r IH]; intros n Hn; simpl.
  - destruct (Z.leb_spec n strconv.maxUint64); [done | lia].
  - unfold digitValue.
    destruct ((0 <=? Z.of_N (N_of_ascii c) - 48) &&
              (Z.of_N (N_of_ascii c) - 48 <=? 9)) eqn:Hd; simpl; [|by left].
    set (d := Z.of_N (N_of_ascii c) - 48) in *.
    assert (0 ≤ d ≤ 9) as Hrange by lia.
    assert (strconv.maxUint64 `div` 10 + 1 = 1844674407370955162) as -> by done.
    assert (strconv.maxUint64 = 18446744073709551615) as Hmax by done.
    destruct (Z.leb_spec 1844674407370955162 n) as [Hcut|Hcut].
    { destruct (numeral r (n * 10 + d)) as [v|] eqn:Hv; [|by right].
      apply numeral_ge in Hv; [|lia].
      destruct (Z.leb_spec v strconv.maxUint64); [lia | done]. }
    destruct (Z.ltb_spec strconv.maxUint64 (n * 10 + d)) as [Hov|Hov].
    { destruct (numeral r (n * 10 + d)) as [v|] eqn:Hv; [|by right].
      apply numeral_ge in Hv; [|lia].
      destruct (Z.leb_spec v strconv.maxUint64); [lia | done]. }
    apply IH. lia.
Qed.

(** [Atoi] succeeds with [k] exactly on the strings that parse as [k]. *)
Lemma Atoi_parsesAs s k : strconv.Atoi s = (k, None) ↔ parsesAs s k.
Proof.
  unfold parsesAs, strconv.in_int.
  assert (strconv.maxUint64 = 18446744073709551615) as Hmax by done.
  assert (strconv.minInt = -9223372036854775808) as Hmin by done.
  assert (strconv.maxInt = 9223372036854775807) as Hmaxi by done.
  assert (2 ^ 63 = 9223372036854775808) as Hpow by done.
  destruct s as [|c r]; [by split; [|intros [? _]]|].
  unfold strconv.Atoi, integerOf. rewrite Hpow.
  destruct (Ascii.eqb_spec c "-") as [->|Hminus].
  - cbn [orb Ascii.eqb Bool.eqb negb andb]. 
    destruct r as [|c' r']; [by split; [|intros [? _]]|].
    pose proof (ParseUint_loop_spec (String c' r') 0 ltac:(lia)) as Hloop.
    destruct (numeral (String c' r') 0) as [v|] eqn:Hv.
    + rewrite Hloop. apply numeral_ge in Hv; [|lia].
      destruct (Z.leb_spec v strconv.maxUint64).
      * destruct (Z.ltb_spec 9223372036854775808 v); simpl.
        -- split; [done | intros [[= <-] ?]; lia].
        -- split; [intros [= <-]; split; [done | lia] | by intros [[= <-] _]].
      * destruct (Z.ltb_spec 9223372036854775808 strconv.maxUint64); [|lia].
        simpl. split; [done | intros [[= <-] ?]; lia].
    + destruct Hloop as [->| ->]; [by split; [|intros [? _]]|].
      destruct (Z.ltb_spec 9223372036854775808 strconv.maxUint64); [|lia].
      by split; [|intros [? _]].
  - cbn [negb andb]. rewrite orb_false_r.
    assert (∀ t, t ≠ "" →
              (match strconv.ParseUint_loop t 0 with
               | (_, Some false) =>
                   (0, Some (NumError "Atoi" (String c r) strconv.ErrSyntax))
               | (un, _) =>
                   if true && (9223372036854775808 <=? un)
                   then (strconv.maxInt,
                         Some (NumError "Atoi" (String c r) strconv.ErrRange))
                   else if false && (9223372036854775808 <? un)
                   then (strconv.minInt,
                         Some (NumError "Atoi" (String c r) strconv.ErrRange))
                   else (un, None)
               end = (k, None))
              ↔ numeral t 0 = Some k ∧ (strconv.minInt ≤ k ≤ strconv.maxInt))
      as Hplain.
    { intros t Ht.
      pose proof (ParseUint_loop_spec t 0 ltac:(lia)) as Hloop.
      destruct (numeral t 0) as [v|] eqn:Hv.
      - rewrite Hloop. apply numeral_ge in Hv; [|lia].
        destruct (Z.leb_spec v strconv.maxUint64).
        + destruct (Z.leb_spec 9223372036854775808 v); simpl.
          * split; [done | intros [[= <-] ?]; lia].
          * split; [intros [= <-]; split; [done | lia] | by intros [[= <-] _]].
        + destruct (Z.leb_spec 9223372036854775808 strconv.maxUint64); [|lia].
          simpl. split; [done | intros [[= <-] ?]; lia].
      - destruct Hloop as [->| ->]; [by split; [|intros [? _]]|].
        destruct (Z.leb_spec 9223372036854775808 strconv.maxUint64); [|lia].
        by split; [|intros [? _]]. }
    destruct (Ascii.eqb_spec c "+") as [->|Hplus].
    + destruct r as [|c' r']; [by split; [|intros [? _]]|].
      by apply Hplain.
    + assert ((match c with
               | "-"%char =>
                   match r with
                   | "" => None
                   | String _ _ => Z.opp <$> numeral r 0
                   end
               | "+"%char =>
                   match r with
                   | "" => None
                   | String _ _ => numeral r 0
                   end
               | _ => numeral (String c r) 0
               end) = numeral (String c r) 0) as Hint.
      { destruct c as [[|] [|] [|] [|] [|] [|] [|] [|]]; done. }
      rewrite Hint. by apply Hplain.
Qed.

Lemma Atoi_error s : (strconv.Atoi s).2 ≠ None ↔ ¬ ∃ k, parsesAs s k.
Proof.
  split.
  - intros Herr [k Hk]. apply Atoi_parsesAs in Hk. by rewrite Hk in Herr.
  - intros Hno. destruct (strconv.Atoi s) as [k [e|]] eqn:E; [done|].
    destruct Hno. exists k. by apply Atoi_parsesAs.
Qed.

(** C1: when the path resolves to nothing, to a boolean, an array or an
    object, or to a string that does not parse as an integer, the
    extractor returns an error (a non-nil one, beside the integer 0) made
    from [errorMsg] and the string or the type name; it never succeeds. *)
Theorem getValueFromSearch_rejects `{!Gjson} (body valueLocation : string)
    (v : located) :
  resolves (GetBytes body valueLocation) v → rejected v →
  getValueFromSearch body valueLocation
    = (0, Some (ErrorfString errorMsg (cited v))) ∧
  (getValueFromSearch body valueLocation).2 ≠ None.
Proof.
  intros Hres Hrej. unfold getValueFromSearch.
  destruct v as [| |[|]|n|s| |]; simpl in Hres, Hrej; try done;
    try (rewrite Hres; done).
  destruct Hres as [Ht Hs]. unfold gjson.Result_String. rewrite Ht, Hs.
  apply Atoi_error in Hrej.
  destruct (strconv.Atoi s) as [q [err|]]; done.
Qed.

(** The string "abc" is rejected with an error that cites it. *)
Lemma getValueFromSearch_rejects_witness :
  (resolves (@GetBytes exampleGjson exampleBody "hits.total.value") (JString "abc") ∧
   rejected (JString "abc")) ∧
  @getValueFromSearch exampleGjson exampleBody "hits.total.value"
    = (0, Some (ErrorfString errorMsg "abc")).
Proof.
  assert (resolves (@GetBytes exampleGjson exampleBody "hits.total.value")
            (JString "abc")) as Hres by (by vm_compute).
  assert (rejected (JString "abc")) as Hrej.
  { apply Atoi_error. by vm_compute. }
  split; [done|].
  exact (proj1 (@getValueFromSearch_rejects exampleGjson exampleBody
                  "hits.total.value" (JString "abc") Hres Hrej)).
Defined.

(** The rounding of an integer below 2^53 is exact. *)
Lemma digits2_pos_iter (m k : positive) :
  digits2_pos (Pos.iter xO m k) = (digits2_pos m + k)%positive.
Proof.
  induction k as [|k IH] using Pos.peano_ind.
  - simpl. lia.
  - rewrite Pos.iter_succ. simpl. rewrite IH. lia.
Qed.

Lemma Zpos_iter (m k : positive) :
  Z.pos (Pos.iter xO m k) = Z.pos m * 2 ^ Z.pos k.
Proof.
  induction k as [|k IH] using Pos.peano_ind.
  - simpl. lia.
  - rewrite Pos.iter_succ, Pos2Z.inj_succ, Z.pow_succ_r by lia.
    rewrite Pos2Z.inj_xO, IH. lia.
Qed.

Lemma digits2_pos_bound (m : positive) :
  2 ^ (Z.pos (digits2_pos m) - 1) ≤ Z.pos m.
Proof.
  induction m as [m IH|m IH|]; simpl digits2_pos.
  - rewrite Pos2Z.inj_succ. replace (Z.succ (Z.pos (digits2_pos m)) - 1)
      with (Z.succ (Z.pos (digits2_pos m) - 1)) by lia.
    rewrite Z.pow_succ_r by lia. lia.
  - rewrite Pos2Z.inj_succ. replace (Z.succ (Z.pos (digits2_pos m)) - 1)
      with (Z.succ (Z.pos (digits2_pos m) - 1)) by lia.
    rewrite Z.pow_succ_r by lia. lia.
  - done.
Qed.

Lemma shr_fexp_exact (mz : positive) (ez : Z) :
  fexp 53 1024 (Z.pos (digits2_pos mz) + ez) = ez →
  shr_fexp 53 1024 (Z.pos mz) ez loc_Exact =
    ({| shr_m := Z.pos mz; shr_r := false; shr_s := false |}, ez).
Proof.
  intros Hf. unfold shr_fexp. cbn [Zdigits2]. rewrite Hf, Z.sub_diag. done.
Qed.

Lemma binary_round_aux_exact (sx : bool) (mz : positive) (ez : Z) :
  fexp 53 1024 (Z.pos (digits2_pos mz) + ez) = ez → ez ≤ 971 →
  binary_round_aux 53 1024 sx (Z.pos mz) ez loc_Exact = S754_finite sx mz ez.
Proof.
  intros Hf Hez. unfold binary_round_aux. rewrite shr_fexp_exact by done.
  cbn [shr_m loc_of_shr_record round_nearest_even].
  rewrite shr_fexp_exact by done. cbn [shr_m].
  destruct (Z.leb_spec ez (1024 - 53)); [done | lia].
Qed.

Lemma binary_round_exact (sx : bool) (m : positive) :
  Z.pos m < 2 ^ 53 →
  ∃ mz ez, binary_round 53 1024 sx m 0 = S754_finite sx mz ez ∧
           ez ≤ 0 ∧ Z.pos mz = Z.pos m * 2 ^ (- ez).
Proof.
  intros Hm. pose proof (digits2_pos_bound m) as Hd.
  assert (Z.pos (digits2_pos m) ≤ 53) as Hd53.
  { destruct (Z.le_gt_cases (Z.pos (digits2_pos m)) 53) as [|Hgt]; [done|].
    assert (2 ^ 53 ≤ 2 ^ (Z.pos (digits2_pos m) - 1)); [|lia].
    apply Z.pow_le_mono_r; lia. }
  unfold binary_round.
  assert (fexp 53 1024 (Z.pos (digits2_pos m) + 0) = Z.pos (digits2_pos m) - 53)
    as Hfexp.
  { unfold fexp, emin. lia. }
  rewrite Hfexp. unfold shl_align.
  destruct (Z.pos (digits2_pos m) - 53 - 0) as [|k|k] eqn:Hk; [|lia|].
  - exists m, 0. split_and!; [|done|simpl; lia].
    apply binary_round_aux_exact; [|lia]. rewrite Hfexp. lia.
  - exists (Pos.iter xO m k), (Z.pos (digits2_pos m) - 53). split_and!.
    + apply binary_round_aux_exact; [|lia].
      rewrite digits2_pos_iter. unfold fexp, emin. lia.
    + lia.
    + rewrite Zpos_iter. f_equal. f_equal. lia.
Qed.

(** An integer literal of magnitude at most 2^53 survives the passage
    through [float64] and back to [int]. *)
Lemma int_of_float64_of_Z (z : Z) :
  Z.abs z ≤ 2 ^ 53 → int_of_float64 (float64_of_Z z) = z.
Proof.
  intros Hz.
  assert (z = 2 ^ 53 ∨ z = - 2 ^ 53 ∨ Z.abs z < 2 ^ 53) as [->|[->|Hlt]] by lia;
    [by vm_compute | by vm_compute |].
  assert (2 ^ 53 = 9007199254740992) as Hpow by done.
  assert (strconv.minInt = -9223372036854775808) as Hmin by done.
  assert (strconv.maxInt = 9223372036854775807) as Hmax by done.
  destruct z as [|m|m]; [done| |].
  - destruct (binary_round_exact false m) as (mz & ez & Hr & Hez & Hmz); [lia|].
    unfold float64_of_Z, binary_normalize. rewrite Hr. cbn [int_of_float64].
    assert ((if 0 <=? ez then Z.pos mz * 2 ^ ez else Z.pos mz `div` 2 ^ (- ez))
            = Z.pos m) as ->.
    { destruct (Z.leb_spec 0 ez).
      - assert (ez = 0) as -> by lia. simpl in Hmz. lia.
      - rewrite Hmz. apply Z.div_mul. apply Z.pow_nonzero; lia. }
    destruct (Z.leb_spec strconv.minInt (Z.pos m)); [|lia].
    destruct (Z.leb_spec (Z.pos m) strconv.maxInt); [done | lia].
  - destruct (binary_round_exact true m) as (mz & ez & Hr & Hez & Hmz); [lia|].
    unfold float64_of_Z, binary_normalize. rewrite Hr. cbn [int_of_float64].
    assert ((if 0 <=? ez then Z.pos mz * 2 ^ ez else Z.pos mz `div` 2 ^ (- ez))
            = Z.pos m) as ->.
    { destruct (Z.leb_spec 0 ez).
      - assert (ez = 0) as -> by lia. simpl in Hmz. lia.
      - rewrite Hmz. apply Z.div_mul. apply Z.pow_nonzero; lia. }
    destruct (Z.leb_spec strconv.minInt (- Z.pos m)); [|lia].
    destruct (Z.leb_spec (- Z.pos m) strconv.maxInt); [done | lia].
Qed.

(** C2 (amended): when the path resolves to a number, the extractor
    converts the [float64] that gjson holds for it, not the literal of the
    response. Whenever the truncation of that [float64] fits the 64-bit
    [int] the extractor returns it (2.75 gives 2 and -2.75 gives -2: the
    fraction is dropped, not rounded). An integer literal of magnitude at
    most 2^53 is therefore returned as it is, and a larger one as its
    [float64] neighbour: 9007199254740993 gives 9007199254740992. When
    the path resolves to a string that parses as the integer [k], the
    extractor returns [k]. The number 42 and the string "42" both give
    42. *)
Theorem getValueFromSearch_accepts `{!Gjson} (body valueLocation : string) :
  (∀ n q, resolves (GetBytes body valueLocation) (JNumber n) →
          float64_value n = Some q → strconv.in_int (Qtruncate q) →
          getValueFromSearch body valueLocation = (Qtruncate q, None)) ∧
  (∀ z, resolves (GetBytes body valueLocation) (JNumber (float64_of_Z z)) →
        Z.abs z ≤ 2 ^ 53 →
        getValueFromSearch body valueLocation = (z, None)) ∧
  (resolves (GetBytes body valueLocation)
     (JNumber (float64_of_Z 9007199254740993)) →
   getValueFromSearch body valueLocation = (9007199254740992, None)) ∧
  (∀ s k, resolves (GetBytes body valueLocation) (JString s) →
          parsesAs s k →
          getValueFromSearch body valueLocation = (k, None)) ∧
  (resolves (GetBytes body valueLocation) (JNumber (float64_of_Z 42)) ∨
   resolves (GetBytes body valueLocation) (JString "42") →
   getValueFromSearch body valueLocation = (42, None)) ∧
  (resolves (GetBytes body valueLocation) (JNumber (S754_finite false 11 (-2))) →
   getValueFromSearch body valueLocation = (2, None)) ∧
  (resolves (GetBytes body valueLocation) (JNumber (S754_finite true 11 (-2))) →
   getValueFromSearch body valueLocation = (-2, None)).
Proof.
  assert (∀ n, resolves (GetBytes body valueLocation) (JNumber n) →
            getValueFromSearch body valueLocation = (int_of_float64 n, None))
    as Hnum.
  { intros n [Ht Hn]. unfold getValueFromSearch. by rewrite Ht, Hn. }
  assert (∀ s k, resolves (GetBytes body valueLocation) (JString s) →
            parsesAs s k →
            getValueFromSearch body valueLocation = (k, None)) as Hstr.
  { intros s k [Ht Hs] Hk%Atoi_parsesAs.
    unfold getValueFromSearch, gjson.Result_String.
    by rewrite Ht, Hs, Hk. }
  split_and!.
  - intros n q Hres Hq Hin. rewrite (Hnum n Hres).
    f_equal. by apply int_of_float64_truncate.
  - intros z Hres Hz. rewrite (Hnum _ Hres). f_equal.
    by apply int_of_float64_of_Z.
  - intros Hres. by rewrite (Hnum _ Hres).
  - done.
  - intros [Hres|Hres]; [by rewrite (Hnum _ Hres) |].
    apply (Hstr "42"); [done | by vm_compute].
  - intros Hres. by rewrite (Hnum _ Hres).
  - intros Hres. by rewrite (Hnum _ Hres).
Qed.

(** The number 42 is extracted as 42. *)
Lemma getValueFromSearch_accepts_witness :
  float64_of_Z 42 = S754_finite false 5910974510923776 (-47) ∧
  resolves (@GetBytes numberGjson numberBody "count")
    (JNumber (S754_finite false 5910974510923776 (-47))) ∧
  float64_value (S754_finite false 5910974510923776 (-47))
    = Some (5910974510923776 # 140737488355328) ∧
  Qtruncate (5910974510923776 # 140737488355328) = 42 ∧
  @getValueFromSearch numberGjson numberBody "count"
    = (42, None).
Proof.
  assert (resolves
            (@GetBytes numberGjson numberBody "count")
            (JNumber (S754_finite false 5910974510923776 (-47)))) as Hres
    by (by vm_compute).
  split_and!; [by vm_compute | done | by vm_compute | by vm_compute |].
  assert (strconv.in_int (Qtruncate (5910974510923776 # 140737488355328)))
    as Hin by (by vm_compute).
  exact (proj1 (@getValueFromSearch_accepts numberGjson _ _) _
           (5910974510923776 # 140737488355328) Hres eq_refl Hin).
Defined.

(** C2 as stated fails. The integer 9007199254740993 (2^53 + 1) lies in
    the range of [int], yet the extractor returns 9007199254740992, the
    integer of the nearest [float64]; for 9223372036854775807, the largest
    [int], the nearest [float64] is 2^63 and the extractor returns the
    most negative [int]; for 2^64 no [int] is its truncation. None of
    the three is an error. *)
Lemma getValueFromSearch_number_not_exact :
  (strconv.in_int 9007199254740993 ∧
   resolves (@GetBytes literalGjson literalBody "odd")
     (JNumber (float64_of_Z 9007199254740993)) ∧
   @getValueFromSearch literalGjson literalBody "odd"
     = (9007199254740992, None) ∧
   @getValueFromSearch literalGjson literalBody "odd"
     ≠ (9007199254740993, None)) ∧
  (strconv.in_int 9223372036854775807 ∧
   resolves (@GetBytes literalGjson literalBody "max")
     (JNumber (float64_of_Z 9223372036854775807)) ∧
   float64_value (float64_of_Z 9223372036854775807) = Some (inject_Z (2 ^ 63)) ∧
   @getValueFromSearch literalGjson literalBody "max" = (- 2 ^ 63, None) ∧
   @getValueFromSearch literalGjson literalBody "max"
     ≠ (9223372036854775807, None)) ∧
  (resolves (@GetBytes literalGjson literalBody "big")
     (JNumber (float64_of_Z (2 ^ 64))) ∧
   ¬ strconv.in_int (2 ^ 64) ∧
   @getValueFromSearch literalGjson literalBody "big" = (- 2 ^ 63, None) ∧
   @getValueFromSearch literalGjson literalBody "big" ≠ (2 ^ 64, None)).
Proof.
  assert (strconv.minInt = -9223372036854775808) as Hmin by done.
  assert (strconv.maxInt = 9223372036854775807) as Hmax by done.
  assert (2 ^ 64 = 18446744073709551616) as Hpow by done.
  split_and!; try (by vm_compute); unfold strconv.in_int; lia.
Qed.

(** ** C3: construction and malformed parameter tokens *)

(** C3 fails on the code. The parameter value "foo" is one token without a
    colon; construction accepts it and returns a scaler that holds the
    token, whatever the engine is, provided it is reachable; the first
    poll of that scaler panics on the access to index 1. *)
Theorem malformed_parameter_accepted
    `{!Gjson, !elasticsearch.Client, !JSONEncoder} :
  parseElasticsearchMetadata (exampleConfig "foo")
    = inl (exampleMetadata "tpl" ["foo"]) ∧
  (∀ c, newElasticsearchClient (exampleMetadata "tpl" ["foo"]) = inl c →
        NewElasticsearchScaler (exampleConfig "foo")
          = inl {| metadata := exampleMetadata "tpl" ["foo"]; esClient := c |}) ∧
  (∀ c, IsActive {| metadata := exampleMetadata "tpl" ["foo"]; esClient := c |}
          = Panic (indexOutOfRange 1 1)) ∧
  @NewElasticsearchScaler (cannedEngine (inl "{}")) (exampleConfig "foo")
    = inl (@Build_elasticsearchScaler (cannedEngine (inl "{}"))
             (exampleMetadata "tpl" ["foo"]) ()).
Proof.
  split_and!.
  - apply parse_exampleConfig_foo.
  - intros c Hc. unfold NewElasticsearchScaler.
    by rewrite parse_exampleConfig_foo, Hc.
  - intros c. unfold IsActive, getQueryResult. cbn [metadata].
    rewrite buildQuery_malformed; [done|].
    intros [[Hw|Hw%Contains_colon] _]%Forall_cons_1; [done | by destruct Hw].
  - by vm_compute.
Qed.

(** ** C6: the activity predicate and the metric value *)

(** Wrapping an error with [fmt.Errorf] makes another error. *)
Lemma Errorf_neq (format : string) (err : error) : Errorf format err ≠ err.
Proof.
  revert format. induction err as [s|f n e IH|f a|f e IH]; intros format;
    try discriminate.
  intros [= -> He]. by apply (IH f).
Qed.

(** C6 (amended): [IsActive] and [GetMetrics] run the same pipeline,
    [getQueryResult]. When it yields the integer [v] without error,
    [IsActive] returns true exactly when [v] is greater than zero (false
    for zero) and [GetMetrics] reports [v]. When it fails with the error
    [err], [IsActive] returns [err] itself and does not report "inactive"
    without an error, while [GetMetrics] returns another error, made by
    [fmt.Errorf] from "error inspecting elasticsearch: %s" and [err]. When
    it panics, both panic. *)
Theorem IsActive_GetMetrics_spec
    `{!Gjson, !elasticsearch.Client, !JSONEncoder} {Time : Type}
    (s : elasticsearchScaler) (metricName : string) (now : Time) :
  match getQueryResult s with
  | Return (v, None) =>
      IsActive s = Return (bool_decide (0 < v), None) ∧
      (v = 0 → IsActive s = Return (false, None)) ∧
      GetMetrics s metricName now =
        Return ([ {| external_metrics.MetricName := metricName;
                     external_metrics.Value :=
                       resource.NewQuantity v resource.DecimalSI;
                     external_metrics.Timestamp := now |} ], None)
  | Return (_, Some err) =>
      IsActive s = Return (false, Some err) ∧
      GetMetrics s metricName now =
        Return ([], Some (Errorf "error inspecting elasticsearch: %s" err)) ∧
      Errorf "error inspecting elasticsearch: %s" err ≠ err
  | Panic e =>
      IsActive s = Panic e ∧ GetMetrics s metricName now = Panic e
  end.
Proof.
  unfold IsActive, GetMetrics.
  destruct (getQueryResult s) as [[v [err|]]|e]; cbn [mbind exec_bind mret exec_ret].
  - split_and!; [done | done | apply Errorf_neq].
  - split_and!; [|by intros -> | done].
    do 2 f_equal. destruct (Z.ltb_spec 0 v).
    + by rewrite bool_decide_eq_true_2.
    + rewrite bool_decide_eq_false_2; [done | lia].
  - done.
Qed.

(** C6 as stated fails: with an engine that refuses the connection,
    [IsActive] returns the transport error and [GetMetrics] a different
    one. *)
Lemma GetMetrics_wraps_error :
  let engine := cannedEngine (inr (errorString "connection refused")) in
  let s := @Build_elasticsearchScaler engine (exampleMetadata "tpl" []) () in
  @IsActive exampleGjson engine emptyEncoder s
    = Return (false, Some (errorString "connection refused")) ∧
  @GetMetrics exampleGjson engine emptyEncoder nat s "metric" 0%nat
    = Return ([], Some (Errorf "error inspecting elasticsearch: %s"
                          (errorString "connection refused"))) ∧
  (@IsActive exampleGjson engine emptyEncoder s ≫= λ r, mret r.2)
    ≠ (@GetMetrics exampleGjson engine emptyEncoder nat s "metric" 0%nat
         ≫= λ r, mret r.2).
Proof. split_and!; by vm_compute. Qed.

(** ** C7: the metric descriptor *)


















(** ** C9: the precedence of the credentials *)

(** C9: in the metadata construction returns, the user name is the one of
    the auth parameters whenever they supply it, and the one of the
    trigger metadata only when the auth parameters have no such key; the
    password is the one of the auth parameters whenever they supply it,
    and the environment value named by the trigger metadata only when they
    do not. *)
Theorem credentials_precedence (config : ScalerConfig)
    (meta : elasticsearchMetadata) :
  parseElasticsearchMetadata config = inl meta →
  (supplies (AuthParams config) "username" →
   username meta = mapIndex (AuthParams config) "username") ∧
  (username meta ≠ mapIndex (AuthParams config) "username" →
   AuthParams config !! "username" = None ∧
   username meta = mapIndex (TriggerMetadata config) "username") ∧
  (AuthParams config !! "username" = None →
   username meta = mapIndex (TriggerMetadata config) "username") ∧
  (supplies (AuthParams config) "password" →
   password meta = mapIndex (AuthParams config) "password") ∧
  (password meta ≠ mapIndex (AuthParams config) "password" →
   ¬ supplies (AuthParams config) "password" ∧
   supplies (TriggerMetadata config) "passwordFromEnv" ∧
   password meta =
     mapIndex (ResolvedEnv config)
       (mapIndex (TriggerMetadata config) "passwordFromEnv")) ∧
  (¬ supplies (AuthParams config) "password" →
   supplies (TriggerMetadata config) "passwordFromEnv" →
   password meta =
     mapIndex (ResolvedEnv config)
       (mapIndex (TriggerMetadata config) "passwordFromEnv")).
Proof.
  intros Hparse.
  assert (username meta =
            match AuthParams config !! "username" with
            | Some val => val
            | None => mapIndex (TriggerMetadata config) "username"
            end ∧
          password meta =
            if decide (supplies (AuthParams config) "password")
            then mapIndex (AuthParams config) "password"
            else if decide (supplies (TriggerMetadata config) "passwordFromEnv")
            then mapIndex (ResolvedEnv config)
                   (mapIndex (TriggerMetadata config) "passwordFromEnv")
            else "") as [Hu Hp].
  { revert Hparse. unfold parseElasticsearchMetadata, supplies.
    destruct (AuthParams config !! "username");
      destruct (decide (mapIndex (AuthParams config) "password" ≠ ""));
      destruct (decide (mapIndex (TriggerMetadata config) "passwordFromEnv" ≠ ""));
      repeat (case_match; try discriminate); intros [= <-]; simpl;
      unfold mapIndex;
      repeat match goal with
             | E : TriggerMetadata config !! "username" = _ |- _ => rewrite E
             end; done. }
  rewrite Hu, Hp. unfold supplies, mapIndex in *.
  destruct (AuthParams config !! "username") as [u|];
    destruct (AuthParams config !! "password") as [p|]; simpl;
    repeat case_decide; naive_solver.
Qed.

(** With "alice" and "secret" in the auth parameters, "bob" and an
    environment variable in the trigger metadata, the metadata holds
    "alice" and "secret". *)
Lemma credentials_precedence_witness :
  ∃ meta,
    parseElasticsearchMetadata credentialsConfig = inl meta ∧
    supplies (AuthParams credentialsConfig) "username" ∧
    supplies (TriggerMetadata credentialsConfig) "username" ∧
    supplies (AuthParams credentialsConfig) "password" ∧
    supplies (TriggerMetadata credentialsConfig) "passwordFromEnv" ∧
    username meta = "alice" ∧ password meta = "secret".
Proof.
  destruct (parseElasticsearchMetadata credentialsConfig) as [meta|err] eqn:E;
    [|by vm_compute in E].
  exists meta.
  destruct (credentials_precedence credentialsConfig meta E)
    as (Hu & _ & _ & Hp & _).
  split_and!; try (by vm_compute).
  - apply Hu. by vm_compute.
  - apply Hp. by vm_compute.
Defined.

(** ** C10: teardown *)

(** C10: [Close] returns no error and leaves the scaler, its metadata and
    its client as they were, however many times it is called. *)
Theorem Close_spec `{!elasticsearch.Client} (s : elasticsearchScaler) :
  Close s = (s, None) ∧
  (∀ n, closeTimes n s = (s, replicate n None)) ∧
  (∀ n, metadata (closeTimes n s).1 = metadata s ∧
        esClient (closeTimes n s).1 = esClient s ∧
        Forall (λ err, err = None) (closeTimes n s).2).
Proof.
  assert (∀ n, closeTimes n s = (s, replicate n None)) as Hn.
  { induction n as [|n IH]; [done|]. cbn [closeTimes Close]. by rewrite IH. }
  split_and!; [done | done |].
  intros n. rewrite Hn. split_and!; [done | done |].
  apply Forall_replicate. done.
Qed.


(** * Further properties of the scaler *)

(** ** Splitting and joining *)

Section SplitJoin.

Implicit Types s t r sep : string.

#[local] Arguments String.append !_ _ /.

Lemma Contains_trimsTo t r sep : trimsTo t r → Contains r sep → Contains t sep.
Proof.
  intros (a & b & -> & _) (x & y & ->).
  exists (a +:+ x), (y +:+ b). by rewrite !string_app_assoc.
Qed.

Lemma Split_nonempty s sep : sep ≠ "" → strings.Split s sep ≠ [].
Proof.
  intros Hsep. unfold strings.Split. destruct sep; [done|].
  apply genSplit_nonempty.
Qed.

(** What every token of a split has: no separator in it and no space at
    either end. *)
Lemma splitAndTrimBySep_tokens s sep :
  sep ≠ "" →
  splitAndTrimBySep s sep ≠ [] ∧
  Forall (λ r, ¬ Contains r sep ∧ trimmedOf (λ c, Ascii.eqb c " ") r)
    (splitAndTrimBySep s sep).
Proof.
  intros Hsep. unfold splitAndTrimBySep. cbv zeta. split.
  - intros H%fmap_nil_inv. by apply Split_nonempty in H.
  - apply Forall_fmap. eapply Forall_impl; [by apply Split_no_sep|].
    intros t Ht. simpl. pose proof (Trim_space_trimsTo t) as Htrim. split.
    + intros Hc. apply Ht. by eapply Contains_trimsTo.
    + by destruct Htrim as (a & b & _ & _ & _ & Htr).
Qed.

Lemma Contains_cons c t sep :
  Contains t sep → Contains (String c t) sep.
Proof. intros (x & y & ->). by exists (String c x), y. Qed.

(** Cutting at a one-byte separator that the text before it does not
    hold. *)
Lemma Cut_byte t c rest :
  ¬ Contains t (String c "") →
  strings.Cut (t +:+ String c rest) (String c "") = Some (t, rest).
Proof.
  induction t as [|d t IH]; intros Hno.
  - simpl. by rewrite Ascii.eqb_refl.
  - destruct (Ascii.eqb_spec c d) as [->|Hne].
    { destruct Hno. by exists "", t. }
    cbn [String.append strings.Cut strings.CutPrefix].
    rewrite (proj2 (Ascii.eqb_neq c d)) by done.
    rewrite IH; [done|]. intros H. apply Hno. by apply Contains_cons.
Qed.

Lemma Cut_absent t sep : ¬ Contains t sep → strings.Cut t sep = None.
Proof.
  intros Hno. destruct (strings.Cut t sep) as [[b a]|] eqn:E; [|done].
  destruct Hno. exists b, a. by apply Cut_Some.
Qed.

Lemma Split_Join_byte c tokens :
  tokens ≠ [] → Forall (λ t, ¬ Contains t (String c "")) tokens →
  strings.Split (strings.Join tokens (String c "")) (String c "") = tokens.
Proof.
  intros Hne Hall. induction Hall as [|t l Ht Hl IH]; [done|].
  destruct l as [|t' l'].
  - cbn [strings.Join]. rewrite Split_unfold by done. by rewrite Cut_absent.
  - rewrite Join_cons by done. rewrite Split_unfold by done.
    cbn [String.append]. rewrite Cut_byte by done. f_equal. by apply IH.
Qed.

Lemma TrimRight_id t cutset :
  (∀ c, last t = Some c → strings.inCutset c cutset = false) →
  strings.TrimRight t cutset = t.
Proof.
  induction t as [|c r IH]; [done|]. intros Hlast.
  cbn [strings.TrimRight]. destruct r as [|c' r'].
  - simpl. by rewrite (Hlast c eq_refl).
  - rewrite IH; [done|]. intros d Hd. apply Hlast. by rewrite last_cons.
Qed.

Lemma TrimLeft_id t cutset :
  (∀ c, first t = Some c → strings.inCutset c cutset = false) →
  strings.TrimLeft t cutset = t.
Proof.
  destruct t as [|c r]; [done|]. intros Hfirst. simpl.
  by rewrite (Hfirst c eq_refl).
Qed.

Lemma Trim_id t :
  trimmedOf (λ c, Ascii.eqb c " ") t → strings.Trim t " " = t.
Proof.
  intros [Hf Hl]. unfold strings.Trim.
  rewrite TrimRight_id.
  - apply TrimLeft_id. intros c Hc. simpl. by rewrite (Hf c Hc).
  - intros c Hc. simpl. by rewrite (Hl c Hc).
Qed.

End SplitJoin.

(** X5: joining a non-empty list of tokens with a one-byte separator and
    splitting the result gives the tokens back, provided no token holds
    the separator or has a space at either end. *)
Theorem splitAndTrimBySep_Join (c : ascii) (tokens : list string) :
  tokens ≠ [] →
  Forall (λ t, ¬ Contains t (String c "") ∧
               trimmedOf (λ c, Ascii.eqb c " ") t) tokens →
  splitAndTrimBySep (strings.Join tokens (String c "")) (String c "") = tokens.
Proof.
  intros Hne Hall. unfold splitAndTrimBySep. cbv zeta.
  rewrite Split_Join_byte; [|done|].
  - clear Hne. induction Hall as [|t l [_ Ht] _ IH]; [done|].
    rewrite fmap_cons, IH. f_equal. by apply Trim_id.
  - eapply Forall_impl; [done|]. by intros t [? _].
Qed.

(** The tokens "a", "" and "b c" joined with semicolons come back. *)
Lemma splitAndTrimBySep_Join_witness :
  (["a"; ""; "b c"] ≠ [] ∧
   Forall (λ t, ¬ Contains t ";" ∧ trimmedOf (λ c, Ascii.eqb c " ") t)
     ["a"; ""; "b c"]) ∧
  splitAndTrimBySep (strings.Join ["a"; ""; "b c"] ";") ";" = ["a"; ""; "b c"].
Proof.
  assert (Forall (λ t, ¬ Contains t ";" ∧ trimmedOf (λ c, Ascii.eqb c " ") t)
            ["a"; ""; "b c"]) as Hall.
  { repeat apply Forall_cons_2; try apply Forall_nil_2;
      (split;
       [intros [x Hx]%Contains_Cut; vm_compute in Hx; discriminate
       |split; intros c Hc; vm_compute in Hc; by simplify_eq]). }
  split; [done|].
  by apply (splitAndTrimBySep_Join ";" ["a"; ""; "b c"]).
Defined.

(** ** Construction of the metadata *)

(** What a successful construction tells about the configuration. *)
Lemma parse_inv config meta :
  parseElasticsearchMetadata config = inl meta →
  ∃ a i tv,
    GetFromAuthOrMeta config "addresses" = (a, None) ∧
    GetFromAuthOrMeta config "index" = (i, None) ∧
    GetFromAuthOrMeta config "searchTemplateName"
      = (searchTemplateName meta, None) ∧
    GetFromAuthOrMeta config "valueLocation" = (valueLocation meta, None) ∧
    GetFromAuthOrMeta config "targetValue" = (tv, None) ∧
    strconv.Atoi tv = (targetValue meta, None) ∧
    match TriggerMetadata config !! "unsafeSsl" with
    | Some val => strconv.ParseBool val = (unsafeSsl meta, None)
    | None => unsafeSsl meta = false
    end ∧
    addresses meta = splitAndTrimBySep a "," ∧
    indexes meta = splitAndTrimBySep i ";".
Proof.
  unfold parseElasticsearchMetadata.
  destruct (GetFromAuthOrMeta config "addresses") as [a [?|]]; [done|].
  destruct (TriggerMetadata config !! "unsafeSsl") as [val|].
  - destruct (strconv.ParseBool val) as [b [?|]]; [done|].
    destruct (GetFromAuthOrMeta config "index") as [i [?|]]; [done|].
    destruct (GetFromAuthOrMeta config "searchTemplateName") as [t [?|]]; [done|].
    destruct (GetFromAuthOrMeta config "valueLocation") as [v [?|]]; [done|].
    destruct (GetFromAuthOrMeta config "targetValue") as [tv [?|]]; [done|].
    destruct (strconv.Atoi tv) as [k [?|]] eqn:Hk; [done|].
    intros [= <-]. by exists a, i, tv.
  - unfold defaultUnsafeSsl.
    destruct (GetFromAuthOrMeta config "index") as [i [?|]]; [done|].
    destruct (GetFromAuthOrMeta config "searchTemplateName") as [t [?|]]; [done|].
    destruct (GetFromAuthOrMeta config "valueLocation") as [v [?|]]; [done|].
    destruct (GetFromAuthOrMeta config "targetValue") as [tv [?|]]; [done|].
    destruct (strconv.Atoi tv) as [k [?|]] eqn:Hk; [done|].
    intros [= <-]. by exists a, i, tv.
Qed.

Lemma ParseBool_spec val b :
  strconv.ParseBool val = (b, None) ↔
  (b = true ∧ val ∈ ["1"; "t"; "T"; "TRUE"; "true"; "True"]) ∨
  (b = false ∧ val ∈ ["0"; "f"; "F"; "FALSE"; "false"; "False"]).
Proof.
  unfold strconv.ParseBool.
  destruct (bool_decide _) eqn:Ht.
  - apply bool_decide_eq_true in Ht. split.
    + intros [= <-]. by left.
    + intros [[-> _]|[_ Hf]]; [done|].
      exfalso. revert Ht Hf. rewrite !elem_of_cons, !elem_of_nil.
      intros Ht Hf. destruct_or!; simplify_eq.
  - apply bool_decide_eq_false in Ht.
    destruct (bool_decide _) eqn:Hf.
    + apply bool_decide_eq_true in Hf. split.
      * intros [= <-]. by right.
      * intros [[_ ?]|[-> _]]; done.
    + apply bool_decide_eq_false in Hf. split; [done|].
      intros [[_ ?]|[_ ?]]; done.
Qed.

(** X1: the target value of constructed metadata is the integer that the
    configured [targetValue] text parses as: an optional sign and decimal
    digits, nothing else, within the range of [int]. *)
Theorem parse_targetValue (config : ScalerConfig) (meta : elasticsearchMetadata) :
  parseElasticsearchMetadata config = inl meta →
  ∃ tv, GetFromAuthOrMeta config "targetValue" = (tv, None) ∧
        parsesAs tv (targetValue meta) ∧
        strconv.in_int (targetValue meta).
Proof.
  intros (a & i & tv & _ & _ & _ & _ & Htv & Hk & _)%parse_inv.
  exists tv. apply Atoi_parsesAs in Hk. by destruct Hk.
Qed.

(** The example configuration has the target value 10. *)
Lemma parse_targetValue_witness :
  parseElasticsearchMetadata (exampleConfig "a:b")
    = inl (exampleMetadata "tpl" ["a:b"]) ∧
  ∃ tv, GetFromAuthOrMeta (exampleConfig "a:b") "targetValue" = (tv, None) ∧
        parsesAs tv 10 ∧ strconv.in_int 10.
Proof.
  assert (parseElasticsearchMetadata (exampleConfig "a:b")
            = inl (exampleMetadata "tpl" ["a:b"])) as H by (by vm_compute).
  split; [done|].
  exact (parse_targetValue (exampleConfig "a:b") (exampleMetadata "tpl" ["a:b"]) H).
Defined.

(** X2: certificate validation is switched off only on request. Without
    an [unsafeSsl] entry in the trigger metadata the flag is false; with
    one, the flag is true exactly for the texts 1, t, T, TRUE, true, True
    and false exactly for 0, f, F, FALSE, false, False; any other text
    makes construction fail, once the addresses are resolved, whatever
    the other fields hold. *)
Theorem parse_unsafeSsl (config : ScalerConfig) :
  (∀ meta, parseElasticsearchMetadata config = inl meta →
     match TriggerMetadata config !! "unsafeSsl" with
     | None => unsafeSsl meta = false
     | Some val =>
         (unsafeSsl meta = true ∧
          val ∈ ["1"; "t"; "T"; "TRUE"; "true"; "True"]) ∨
         (unsafeSsl meta = false ∧
          val ∈ ["0"; "f"; "F"; "FALSE"; "false"; "False"])
     end) ∧
  (∀ a val,
     GetFromAuthOrMeta config "addresses" = (a, None) →
     TriggerMetadata config !! "unsafeSsl" = Some val →
     val ∉ ["1"; "t"; "T"; "TRUE"; "true"; "True";
            "0"; "f"; "F"; "FALSE"; "false"; "False"] →
     parseElasticsearchMetadata config =
       inr (Errorf "error parsing unsafeSsL: %s"
              (NumError "ParseBool" val strconv.ErrSyntax))).
Proof.
  split.
  - intros meta (a & i & tv & _ & _ & _ & _ & _ & _ & Hu & _)%parse_inv.
    destruct (TriggerMetadata config !! "unsafeSsl"); [|done].
    by apply ParseBool_spec.
  - intros a val Ha Hval Hno. unfold parseElasticsearchMetadata.
    rewrite Ha, Hval. unfold strconv.ParseBool.
    rewrite !bool_decide_eq_false_2; [done | |].
    + intros H. apply Hno. revert H. rewrite !elem_of_cons. tauto.
    + intros H. apply Hno. revert H. rewrite !elem_of_cons. tauto.
Qed.

Lemma Atoi_error_shape tv k e :
  strconv.Atoi tv = (k, Some e) →
  ∃ e', e = NumError "Atoi" tv e' ∧
        (e' = strconv.ErrSyntax ∨ e' = strconv.ErrRange).
Proof.
  unfold strconv.Atoi.
  repeat case_match; intros [= <- <-]; eauto.
Qed.

Lemma ParseBool_error_shape val b e :
  strconv.ParseBool val = (b, Some e) →
  e = NumError "ParseBool" val strconv.ErrSyntax.
Proof.
  unfold strconv.ParseBool. repeat case_match; by intros [= <- <-].
Qed.

(** X3: construction fails for three kinds of reason only, and never
    because of the credentials or the parameters: a mandatory field
    (addresses, index, searchTemplateName, valueLocation, targetValue)
    that cannot be resolved, whose error is returned as it is; an
    [unsafeSsl] text that is no boolean; a [targetValue] text that does
    not parse as an integer. The addresses are checked first: their error
    is the one returned whatever else is wrong. *)
Theorem parse_error_reasons (config : ScalerConfig) (err : error) :
  parseElasticsearchMetadata config = inr err →
  ((∃ field,
      field ∈ ["addresses"; "index"; "searchTemplateName"; "valueLocation";
               "targetValue"] ∧
      (GetFromAuthOrMeta config field).2 = Some err) ∨
   (∃ val,
      TriggerMetadata config !! "unsafeSsl" = Some val ∧
      err = Errorf "error parsing unsafeSsL: %s"
              (NumError "ParseBool" val strconv.ErrSyntax)) ∨
   (∃ tv e,
      GetFromAuthOrMeta config "targetValue" = (tv, None) ∧
      (¬ ∃ k, parsesAs tv k) ∧
      (e = strconv.ErrSyntax ∨ e = strconv.ErrRange) ∧
      err = Errorf "targetValue parsing error %s" (NumError "Atoi" tv e))) ∧
  (∀ e, (GetFromAuthOrMeta config "addresses").2 = Some e → err = e).
Proof.
  unfold parseElasticsearchMetadata.
  destruct (GetFromAuthOrMeta config "addresses") as [a [ea|]] eqn:Ha.
  { intros [= <-]. split; [|by intros ? [= <-]].
    left. exists "addresses". rewrite Ha. split; [|done].
    rewrite !elem_of_cons. tauto. }
  intros H. split; [|done]. revert H.
  assert (∀ b,
    match GetFromAuthOrMeta config "index" with
    | (_, Some err0) => inr err0
    | (index_, None) =>
        match GetFromAuthOrMeta config "searchTemplateName" with
        | (_, Some err0) => inr err0
        | (meta_searchTemplateName, None) =>
            match GetFromAuthOrMeta config "valueLocation" with
            | (_, Some err0) => inr err0
            | (meta_valueLocation, None) =>
                match GetFromAuthOrMeta config "targetValue" with
                | (_, Some err0) => inr err0
                | (targetValue_, None) =>
                    match strconv.Atoi targetValue_ with
                    | (_, Some err0) =>
                        inr (Errorf "targetValue parsing error %s" err0)
                    | (meta_targetValue, None) =>
                        inl
                          {| addresses := splitAndTrimBySep a ",";
                             unsafeSsl := b;
                             username :=
                               match AuthParams config !! "username" with
                               | Some val => val
                               | None =>
                                   match TriggerMetadata config !! "username" with
                                   | Some val => val
                                   | None => ""
                                   end
                               end;
                             password :=
                               if decide (mapIndex (AuthParams config) "password" ≠ "")
                               then mapIndex (AuthParams config) "password"
                               else if decide (mapIndex (TriggerMetadata config)
                                                 "passwordFromEnv" ≠ "")
                               then mapIndex (ResolvedEnv config)
                                      (mapIndex (TriggerMetadata config)
                                         "passwordFromEnv")
                               else "";
                             indexes := splitAndTrimBySep index_ ";";
                             searchTemplateName := meta_searchTemplateName;
                             parameters :=
                               match TriggerMetadata config !! "parameters" with
                               | Some val => splitAndTrimBySep val ";"
                               | None => []
                               end;
                             valueLocation := meta_valueLocation;
                             targetValue := meta_targetValue |}
                    end
                end
            end
        end
    end = inr err →
    (∃ field,
      field ∈ ["addresses"; "index"; "searchTemplateName"; "valueLocation";
               "targetValue"] ∧
      (GetFromAuthOrMeta config field).2 = Some err) ∨
    (∃ val,
      TriggerMetadata config !! "unsafeSsl" = Some val ∧
      err = Errorf "error parsing unsafeSsL: %s"
              (NumError "ParseBool" val strconv.ErrSyntax)) ∨
    (∃ tv e,
      GetFromAuthOrMeta config "targetValue" = (tv, None) ∧
      (¬ ∃ k, parsesAs tv k) ∧
      (e = strconv.ErrSyntax ∨ e = strconv.ErrRange) ∧
      err = Errorf "targetValue parsing error %s" (NumError "Atoi" tv e)))
    as Hrest.
  { intros b.
    destruct (GetFromAuthOrMeta config "index") as [i [ei|]] eqn:Hi.
    { intros [= <-]. left. exists "index". rewrite Hi. split; [|done].
      rewrite !elem_of_cons. tauto. }
    destruct (GetFromAuthOrMeta config "searchTemplateName") as [t [et|]] eqn:Ht.
    { intros [= <-]. left. exists "searchTemplateName". rewrite Ht.
      split; [|done]. rewrite !elem_of_cons. tauto. }
    destruct (GetFromAuthOrMeta config "valueLocation") as [v [ev|]] eqn:Hv.
    { intros [= <-]. left. exists "valueLocation". rewrite Hv.
      split; [|done]. rewrite !elem_of_cons. tauto. }
    destruct (GetFromAuthOrMeta config "targetValue") as [tv [etv|]] eqn:Htv.
    { intros [= <-]. left. exists "targetValue". rewrite Htv.
      split; [|done]. rewrite !elem_of_cons. tauto. }
    destruct (strconv.Atoi tv) as [k [ek|]] eqn:Hk; [|done].
    intros [= <-]. right; right.
    destruct (Atoi_error_shape _ _ _ Hk) as (e' & -> & He').
    exists tv, e'. split_and!; try done.
    apply Atoi_error. by rewrite Hk. }
  destruct (TriggerMetadata config !! "unsafeSsl") as [val|] eqn:Hval.
  - destruct (strconv.ParseBool val) as [b [eb|]] eqn:Hb.
    + intros [= <-]. right; left. exists val. split; [done|].
      by rewrite (ParseBool_error_shape _ _ _ Hb).
    + apply Hrest.
  - apply Hrest.
Qed.

(** The configuration without a template name is refused with the error
    of that field. *)
Lemma parse_error_reasons_witness :
  parseElasticsearchMetadata noTemplateConfig
    = inr (ErrorfString "no %s given" "searchTemplateName") ∧
  ∃ field,
    field ∈ ["addresses"; "index"; "searchTemplateName"; "valueLocation";
             "targetValue"] ∧
    (GetFromAuthOrMeta noTemplateConfig field).2
      = Some (ErrorfString "no %s given" "searchTemplateName").
Proof.
  assert (parseElasticsearchMetadata noTemplateConfig
            = inr (ErrorfString "no %s given" "searchTemplateName")) as H
    by (by vm_compute).
  split; [done|].
  destruct (proj1 (parse_error_reasons noTemplateConfig _ H))
    as [Hfield|[(val & _ & Herr)|(tv & e & _ & _ & _ & Herr)]];
    [exact Hfield | discriminate Herr | discriminate Herr].
Defined.

(** X4: in constructed metadata the lists of addresses and of indexes
    are not empty, no address holds a comma, no index and no parameter
    token holds a semicolon, and none of them starts or ends with a
    space. *)
Theorem parse_tokens_shape (config : ScalerConfig) (meta : elasticsearchMetadata) :
  parseElasticsearchMetadata config = inl meta →
  addresses meta ≠ [] ∧ indexes meta ≠ [] ∧
  Forall (λ t, ¬ Contains t "," ∧ trimmedOf (λ c, Ascii.eqb c " ") t)
    (addresses meta) ∧
  Forall (λ t, ¬ Contains t ";" ∧ trimmedOf (λ c, Ascii.eqb c " ") t)
    (indexes meta) ∧
  Forall (λ t, ¬ Contains t ";" ∧ trimmedOf (λ c, Ascii.eqb c " ") t)
    (parameters meta).
Proof.
  intros H. pose proof (parse_parameters _ _ H) as Hp.
  apply parse_inv in H as (a & i & tv & _ & _ & _ & _ & _ & _ & _ & Ha & Hi).
  rewrite Ha, Hi, Hp.
  destruct (splitAndTrimBySep_tokens a ",") as [??]; [done|].
  destruct (splitAndTrimBySep_tokens i ";") as [??]; [done|].
  split_and!; try done.
  destruct (TriggerMetadata config !! "parameters") as [val|]; [|done].
  by apply splitAndTrimBySep_tokens.
Qed.

(** The metadata of the example configuration has one address and one
    index. *)
Lemma parse_tokens_shape_witness :
  parseElasticsearchMetadata (exampleConfig " a:b ; ;c:d")
    = inl (exampleMetadata "tpl" ["a:b"; ""; "c:d"]) ∧
  Forall (λ t, ¬ Contains t ";" ∧ trimmedOf (λ c, Ascii.eqb c " ") t)
    ["a:b"; ""; "c:d"].
Proof.
  assert (parseElasticsearchMetadata (exampleConfig " a:b ; ;c:d")
            = inl (exampleMetadata "tpl" ["a:b"; ""; "c:d"])) as H
    by (by vm_compute).
  split; [done|].
  exact (proj2 (proj2 (proj2 (proj2
    (parse_tokens_shape _ (exampleMetadata "tpl" ["a:b"; ""; "c:d"]) H))))).
Defined.

(** ** The extractor and the pipeline *)

Lemma int_of_float64_in_int (f : float64) : strconv.in_int (int_of_float64 f).
Proof.
  unfold strconv.in_int.
  assert (strconv.minInt ≤ strconv.minInt ≤ strconv.maxInt) by done.
  destruct f as [s| | |s m e]; simpl; try done.
  destruct (_ && _) eqn:E; [|done].
  apply andb_true_iff in E as [?%Z.leb_le ?%Z.leb_le]. done.
Qed.

Lemma in_int_0 : strconv.in_int 0.
Proof. by vm_compute. Qed.

(** Beside an error the extractor returns 0. *)
Lemma getValueFromSearch_error_zero `{!Gjson} (body valueLocation : string) :
  (getValueFromSearch body valueLocation).2 ≠ None →
  (getValueFromSearch body valueLocation).1 = 0.
Proof.
  unfold getValueFromSearch.
  destruct (gjson.Type_ (GetBytes body valueLocation)); simpl; try done.
  by destruct (strconv.Atoi _) as [q [err|]].
Qed.

(** X6: the integer the extractor returns always fits [int]; it is 0
    beside every error; a number is never refused, whatever its size; and
    a result without error comes from a number or from a string that
    parses as the integer returned. *)
Theorem getValueFromSearch_range `{!Gjson} (body valueLocation : string) :
  strconv.in_int (getValueFromSearch body valueLocation).1 ∧
  ((getValueFromSearch body valueLocation).2 ≠ None →
   (getValueFromSearch body valueLocation).1 = 0) ∧
  (gjson.Type_ (GetBytes body valueLocation) = gjson.Number →
   (getValueFromSearch body valueLocation).2 = None) ∧
  ((getValueFromSearch body valueLocation).2 = None →
   gjson.Type_ (GetBytes body valueLocation) = gjson.Number ∨
   (gjson.Type_ (GetBytes body valueLocation) = gjson.String ∧
    parsesAs (gjson.Str (GetBytes body valueLocation))
      (getValueFromSearch body valueLocation).1)).
Proof.
  split; [|split; [apply getValueFromSearch_error_zero|]].
  - unfold getValueFromSearch, gjson.Result_String.
    destruct (gjson.Type_ (GetBytes body valueLocation)); simpl;
      try apply in_int_0; [apply int_of_float64_in_int|].
    destruct (strconv.Atoi _) as [q [err|]] eqn:Hq; simpl; [apply in_int_0|].
    apply Atoi_parsesAs in Hq. by destruct Hq.
  - unfold getValueFromSearch, gjson.Result_String.
    destruct (gjson.Type_ (GetBytes body valueLocation)) eqn:Ht; simpl;
      try (split; done).
    + split; [done|]. intros _. by left.
    + destruct (strconv.Atoi _) as [q [err|]] eqn:Hq; simpl; [split; done|].
      split; [done|]. intros _. right. split; [done|].
      by apply Atoi_parsesAs.
Qed.

Lemma getQueryResult_Return `{!Gjson, !elasticsearch.Client, !JSONEncoder}
    (s : elasticsearchScaler) (query : gmap string queryValue) :
  buildQuery (metadata s) = Return query →
  getQueryResult s =
    Return
      match elasticsearch.SearchTemplate (esClient s) (Encode query).1
              (indexes (metadata s)) with
      | inr err => (0, Some err)
      | inl res =>
          match elasticsearch.ReadAll res with
          | (_, Some err) => (0, Some err)
          | (b, None) => getValueFromSearch b (valueLocation (metadata s))
          end
      end.
Proof.
  intros Hq. unfold getQueryResult. rewrite Hq. cbn [mbind exec_bind].
  destruct (Encode query) as [body e]. cbn [fst].
  destruct (elasticsearch.SearchTemplate _ _ _) as [res|err]; [|done].
  destruct (elasticsearch.ReadAll res) as [b [err|]]; [done|].
  pose proof (getValueFromSearch_error_zero b (valueLocation (metadata s)))
    as Hzero.
  destruct (getValueFromSearch b (valueLocation (metadata s))) as [v [err|]];
    [|done].
  simpl in Hzero. by rewrite Hzero.
Qed.

(** The outcome of building the query decides whether the pipeline
    panics. *)
Lemma getQueryResult_Panic `{!Gjson, !elasticsearch.Client, !JSONEncoder}
    (s : elasticsearchScaler) :
  (∃ e, getQueryResult s = Panic e) ↔
  ¬ Forall wellFormed (parameters (metadata s)).
Proof.
  split.
  - intros [e He] Hwf. pose proof (buildQuery_wellFormed _ Hwf) as Hq.
    by rewrite (getQueryResult_Return _ _ Hq) in He.
  - intros Hbad. exists (indexOutOfRange 1 1). unfold getQueryResult.
    by rewrite buildQuery_malformed.
Qed.

(** X7: a poll panics exactly when a non-empty parameter token has no
    colon, before any request is made and whatever the engine is.
    Otherwise it sends the encoded query (an encoding error is ignored)
    to the indexes of the metadata and returns: the transport error or the
    read error as it is, or else what the extractor finds at
    [valueLocation] in the body. Beside an error the integer is 0, and
    without one it fits [int]. *)
Theorem getQueryResult_spec `{!Gjson, !elasticsearch.Client, !JSONEncoder}
    (s : elasticsearchScaler) :
  ((∃ e, getQueryResult s = Panic e) ↔
   ¬ Forall wellFormed (parameters (metadata s))) ∧
  (∀ query, buildQuery (metadata s) = Return query →
     getQueryResult s =
       Return
         match elasticsearch.SearchTemplate (esClient s) (Encode query).1
                 (indexes (metadata s)) with
         | inr err => (0, Some err)
         | inl res =>
             match elasticsearch.ReadAll res with
             | (_, Some err) => (0, Some err)
             | (b, None) => getValueFromSearch b (valueLocation (metadata s))
             end
         end) ∧
  (∀ v err, getQueryResult s = Return (v, Some err) → v = 0) ∧
  (∀ v, getQueryResult s = Return (v, None) → strconv.in_int v).
Proof.
  split; [apply getQueryResult_Panic|].
  split; [apply getQueryResult_Return|].
  assert (∀ r, getQueryResult s = Return r →
            strconv.in_int r.1 ∧ (r.2 ≠ None → r.1 = 0)) as Hr.
  { intros r Hret.
    destruct (tokens_dec (parameters (metadata s))) as [Hwf|Hbad].
    - rewrite (getQueryResult_Return _ _ (buildQuery_wellFormed _ Hwf)) in Hret.
      injection Hret as <-.
      destruct (elasticsearch.SearchTemplate _ _ _) as [res|err];
        [|split; [apply in_int_0 | done]].
      destruct (elasticsearch.ReadAll res) as [b [err|]];
        [split; [apply in_int_0 | done]|].
      split; [|apply getValueFromSearch_error_zero].
      unfold getValueFromSearch, gjson.Result_String.
      destruct (gjson.Type_ _); simpl;
        try apply in_int_0; [apply int_of_float64_in_int|].
      destruct (strconv.Atoi _) as [q [err|]] eqn:Hq; simpl; [apply in_int_0|].
      apply Atoi_parsesAs in Hq. by destruct Hq.
    - apply malformed_not_wellFormed in Hbad.
      apply getQueryResult_Panic in Hbad as [e He]. congruence. }
  split.
  - intros v err Hret. by apply (Hr _ Hret).
  - intros v Hret. by apply (Hr _ Hret).
Qed.

(** ** Construction of the scaler *)

Lemma NewElasticsearchScaler_inv `{!elasticsearch.Client}
    (config : ScalerConfig) (s : elasticsearchScaler) :
  NewElasticsearchScaler config = inl s ↔
  parseElasticsearchMetadata config = inl (metadata s) ∧
  newElasticsearchClient (metadata s) = inl (esClient s).
Proof.
  unfold NewElasticsearchScaler. split.
  - destruct (parseElasticsearchMetadata config) as [meta|err]; [|done].
    destruct (newElasticsearchClient meta) as [c|err] eqn:Hc; [|done].
    by intros [= <-].
  - destruct s as [meta c]. simpl. intros [-> ->]. done.
Qed.

(** X8: a scaler is returned exactly when the configuration resolves to
    metadata, the client library accepts the connection settings made
    from them (the addresses, user name and password of the metadata, and
    a transport without certificate validation exactly when [unsafeSsl] is
    set), and the engine answers the ping; the scaler then holds that
    metadata and that client. If the configuration does not resolve, the
    error says so and wraps the cause, whatever the engine; if the client
    or the ping fails, the error wraps the cause under another heading. *)
Theorem NewElasticsearchScaler_spec `{!elasticsearch.Client}
    (config : ScalerConfig) :
  (∀ s, NewElasticsearchScaler config = inl s ↔
        parseElasticsearchMetadata config = inl (metadata s) ∧
        elasticsearch.NewClient
          {| elasticsearch.Addresses := addresses (metadata s);
             elasticsearch.Username := username (metadata s);
             elasticsearch.Password := password (metadata s);
             elasticsearch.Transport :=
               if unsafeSsl (metadata s) then Some true else None |}
          = inl (esClient s) ∧
        ∃ res, elasticsearch.Info (esClient s) = inl res) ∧
  (∀ err, parseElasticsearchMetadata config = inr err →
          NewElasticsearchScaler config =
            inr (Errorf "error parsing elasticsearch metadata: %s" err)) ∧
  (∀ meta err,
      parseElasticsearchMetadata config = inl meta →
      elasticsearch.NewClient
        {| elasticsearch.Addresses := addresses meta;
           elasticsearch.Username := username meta;
           elasticsearch.Password := password meta;
           elasticsearch.Transport :=
             if unsafeSsl meta then Some true else None |} = inr err ∨
      (∃ c, elasticsearch.NewClient
              {| elasticsearch.Addresses := addresses meta;
                 elasticsearch.Username := username meta;
                 elasticsearch.Password := password meta;
                 elasticsearch.Transport :=
                   if unsafeSsl meta then Some true else None |} = inl c ∧
            elasticsearch.Info c = inr err) →
      NewElasticsearchScaler config =
        inr (Errorf "error getting elasticsearch client: %s" err)).
Proof.
  split_and!.
  - intros s. rewrite NewElasticsearchScaler_inv.
    unfold newElasticsearchClient. split.
    + intros [Hp Hc]. split; [done|].
      destruct (elasticsearch.NewClient _) as [c|err]; [|done].
      destruct (elasticsearch.Info c) as [res|err] eqn:Hi; [|done].
      injection Hc as <-. eauto.
    + intros (Hp & -> & res & ->). done.
  - intros err Hp. unfold NewElasticsearchScaler. by rewrite Hp.
  - intros meta err Hp Hfail.
    unfold NewElasticsearchScaler, newElasticsearchClient. rewrite Hp.
    destruct Hfail as [-> | (c & -> & ->)]; done.
Qed.

(** ** The query and the empty tokens *)

Lemma rangeLoop_skips_empty (tokens : list string) (acc : gmap string string) :
  rangeLoop setParameter (filter (λ p, p ≠ "") tokens) acc
    = rangeLoop setParameter tokens acc.
Proof.
  revert acc. induction tokens as [|p tokens IH]; intros acc; [done|].
  destruct (decide (p = "")) as [->|Hne].
  - rewrite filter_cons_False by (by intros ?).
    cbn [rangeLoop]. rewrite setParameter_empty. apply IH.
  - rewrite filter_cons_True by done. cbn [rangeLoop].
    destruct (setParameter acc p) as [acc'|e]; [apply IH | done].
Qed.

(** X9: the query depends on the template name and on the non-empty
    parameter tokens only: empty tokens (a doubled or trailing semicolon
    in the configuration) and every other field of the metadata leave it
    as it is, also when it panics. *)
Theorem buildQuery_skips_empty (m1 m2 : elasticsearchMetadata) :
  searchTemplateName m1 = searchTemplateName m2 →
  filter (λ p, p ≠ "") (parameters m1) = filter (λ p, p ≠ "") (parameters m2) →
  buildQuery m1 = buildQuery m2.
Proof.
  intros Hname Hps. unfold buildQuery.
  rewrite <- (rangeLoop_skips_empty (parameters m1)).
  rewrite <- (rangeLoop_skips_empty (parameters m2)).
  by rewrite Hname, Hps.
Qed.

(** The tokens "a:b", "", "" build the query of the token "a:b". *)
Lemma buildQuery_skips_empty_witness :
  buildQuery (exampleMetadata "tpl" ["a:b"; ""; ""])
    = buildQuery (exampleMetadata "tpl" ["a:b"]).
Proof.
  apply (buildQuery_skips_empty (exampleMetadata "tpl" ["a:b"; ""; ""])
           (exampleMetadata "tpl" ["a:b"])); by vm_compute.
Defined.

(** ** From the configuration to the poll *)

Lemma IsActive_Panic `{!Gjson, !elasticsearch.Client, !JSONEncoder}
    (s : elasticsearchScaler) :
  (∃ e, IsActive s = Panic e) ↔ (∃ e, getQueryResult s = Panic e).
Proof.
  unfold IsActive.
  destruct (getQueryResult s) as [[v [err|]]|e]; cbn [mbind exec_bind];
    split; intros [e' He']; try done; eauto.
Qed.

Lemma GetMetrics_Panic `{!Gjson, !elasticsearch.Client, !JSONEncoder}
    {Time : Type} (s : elasticsearchScaler) (metricName : string) (now : Time) :
  (∃ e, GetMetrics s metricName now = Panic e) ↔
  (∃ e, getQueryResult s = Panic e).
Proof.
  unfold GetMetrics.
  destruct (getQueryResult s) as [[v [err|]]|e]; cbn [mbind exec_bind];
    split; intros [e' He']; try done; eauto.
Qed.

(** X10: for a scaler that construction returned, [IsActive] and
    [GetMetrics] panic exactly when the [parameters] entry of the trigger
    metadata, split at the semicolons, has a non-empty token without a
    colon; a configuration without that entry never makes a poll panic. *)
Theorem poll_panics_iff `{!Gjson, !elasticsearch.Client, !JSONEncoder}
    {Time : Type} (config : ScalerConfig) (s : elasticsearchScaler)
    (metricName : string) (now : Time) :
  NewElasticsearchScaler config = inl s →
  ((∃ e, IsActive s = Panic e) ↔
   ∃ val, TriggerMetadata config !! "parameters" = Some val ∧
          ¬ Forall wellFormed (splitAndTrimBySep val ";")) ∧
  ((∃ e, GetMetrics s metricName now = Panic e) ↔
   ∃ val, TriggerMetadata config !! "parameters" = Some val ∧
          ¬ Forall wellFormed (splitAndTrimBySep val ";")) ∧
  (TriggerMetadata config !! "parameters" = None →
   (∃ r, IsActive s = Return r) ∧ ∃ r, GetMetrics s metricName now = Return r).
Proof.
  intros [Hp _]%NewElasticsearchScaler_inv.
  apply parse_parameters in Hp.
  assert ((∃ e, getQueryResult s = Panic e) ↔
          ∃ val, TriggerMetadata config !! "parameters" = Some val ∧
                 ¬ Forall wellFormed (splitAndTrimBySep val ";")) as Hiff.
  { rewrite getQueryResult_Panic, Hp.
    destruct (TriggerMetadata config !! "parameters") as [val|].
    - split; [by exists val | by intros (? & [= <-] & ?)].
    - split; [by intros [] | by intros (? & ? & ?)]. }
  split_and!.
  - by rewrite IsActive_Panic.
  - by rewrite GetMetrics_Panic.
  - intros Hnone.
    assert (¬ ∃ e, getQueryResult s = Panic e) as Hno.
    { rewrite Hiff, Hnone. by intros (? & ? & ?). }
    split.
    + destruct (IsActive s) as [r|e] eqn:E; [by exists r|].
      destruct Hno. apply IsActive_Panic. by exists e.
    + destruct (GetMetrics s metricName now) as [r|e] eqn:E; [by exists r|].
      destruct Hno. apply (GetMetrics_Panic s metricName now). by exists e.
Qed.

(** With a reachable engine the example configuration gives a scaler
    whose polls return. *)
Lemma poll_panics_iff_witness :
  let engine := cannedEngine (inl exampleBody) in
  let s := @Build_elasticsearchScaler engine (exampleMetadata "tpl" ["a:b"]) () in
  @NewElasticsearchScaler engine (exampleConfig "a:b") = inl s ∧
  ¬ ∃ e, @IsActive exampleGjson engine emptyEncoder s = Panic e.
Proof.
  intros engine s.
  assert (@NewElasticsearchScaler engine (exampleConfig "a:b") = inl s) as H
    by (by vm_compute).
  split; [done|].
  rewrite (proj1 (@poll_panics_iff exampleGjson engine emptyEncoder nat
                    (exampleConfig "a:b") s "metric" 0%nat H)).
  intros (val & Hval & Hbad). vm_compute in Hval. injection Hval as <-.
  apply Hbad. repeat apply Forall_cons_2; try apply Forall_nil_2.
  right. apply Contains_colon. vm_compute. eauto.
Defined.

(** ** The keys of the parameters and the number of tokens *)

Lemma paramMapping_keys (tokens : list string) (k : string) :
  is_Some (paramMapping tokens !! k) ↔
  ∃ p, p ∈ tokens ∧ p ≠ "" ∧ tokenKey p = k.
Proof.
  unfold paramMapping. rewrite <- elem_of_dom, dom_list_to_map_L.
  rewrite elem_of_list_to_set, fmap_reverse, elem_of_reverse.
  unfold tokenPairs. rewrite <- list_fmap_compose, list_elem_of_fmap.
  split.
  - intros (p & -> & [Hp Hin]%list_elem_of_filter). by exists p.
  - intros (p & Hin & Hp & <-). exists p. split; [done|].
    by apply list_elem_of_filter.
Qed.

(** X11: when the query is built, its [params] field, if present, is
    never the empty mapping, and its keys are exactly the keys of the
    non-empty parameter tokens: every such token contributes its key and
    no other key appears. *)
Theorem buildQuery_params_keys (metadata : elasticsearchMetadata)
    (query : gmap string queryValue) :
  buildQuery metadata = Return query →
  (∀ s, query !! "params" ≠ Some (qString s)) ∧
  (∀ m, query !! "params" = Some (qParams m) →
        m ≠ ∅ ∧
        ∀ k, is_Some (m !! k) ↔
             ∃ p, p ∈ parameters metadata ∧ p ≠ "" ∧ tokenKey p = k) ∧
  (query !! "params" = None →
   ∀ p, p ∈ parameters metadata → p = "").
Proof.
  intros Hq.
  destruct (tokens_dec (parameters metadata)) as [Hwf|Hbad];
    [|apply malformed_not_wellFormed in Hbad;
      by rewrite buildQuery_malformed in Hq].
  rewrite buildQuery_wellFormed in Hq by done. cbv zeta in Hq.
  injection Hq as <-.
  destruct (0 <? size (paramMapping (parameters metadata)))%nat eqn:Hsize.
  - rewrite lookup_insert_eq. split_and!; [done | | done].
    intros m [= <-]. split; [|apply paramMapping_keys].
    apply Nat.ltb_lt in Hsize. intros He. rewrite He, map_size_empty in Hsize.
    lia.
  - rewrite lookup_singleton_ne by done. split_and!; [done | done |].
    intros _ p Hin. destruct (decide (p = "")) as [|Hne]; [done|].
    apply Nat.ltb_ge in Hsize.
    assert (paramMapping (parameters metadata) = ∅) as He.
    { apply map_size_empty_iff. lia. }
    assert (is_Some (paramMapping (parameters metadata) !! tokenKey p)) as Hk.
    { apply paramMapping_keys. by exists p. }
    rewrite He, lookup_empty in Hk. by destruct Hk.
Qed.

(** The tokens "a:b" and "c:d" give the keys [a] and [c]. *)
Lemma buildQuery_params_keys_witness :
  buildQuery (exampleMetadata "tpl" ["a:b"; "c:d"])
    = Return (<["params" := qParams {[ "a" := "b"; "c" := "d" ]}]>
                {[ "id" := qString "tpl" ]}) ∧
  ({[ "a" := "b"; "c" := "d" ]} : gmap string string) ≠ ∅.
Proof.
  assert (buildQuery (exampleMetadata "tpl" ["a:b"; "c:d"])
            = Return (<["params" := qParams {[ "a" := "b"; "c" := "d" ]}]>
                        {[ "id" := qString "tpl" ]})) as H by (by vm_compute).
  split; [done|].
  destruct (buildQuery_params_keys _ _ H) as (_ & Hm & _).
  by apply (Hm {[ "a" := "b"; "c" := "d" ]}).
Defined.

Lemma Split_byte_cons (c d : ascii) (r : string) :
  strings.Split (String d r) (String c "") =
    if Ascii.eqb c d then "" :: strings.Split r (String c "")
    else match strings.Split r (String c "") with
         | h :: tl => String d h :: tl
         | [] => [String d ""]
         end.
Proof.
  rewrite (Split_unfold (String d r)) by done.
  rewrite (Split_unfold r) by done.
  cbn [strings.Cut strings.CutPrefix].
  destruct (Ascii.eqb c d); [by rewrite (Split_unfold r)|].
  by destruct (strings.Cut r (String c "")) as [[b a]|].
Qed.

(** X12: split at a one-byte separator, a string gives one token more
    than it has separators; the empty string gives one empty token. *)
Theorem splitAndTrimBySep_length (c : ascii) (s : string) :
  length (splitAndTrimBySep s (String c "")) = S (countByte c s).
Proof.
  unfold splitAndTrimBySep. cbv zeta. rewrite length_fmap.
  induction s as [|d r IH]; [done|].
  rewrite Split_byte_cons. cbn [countByte].
  destruct (Ascii.eqb c d).
  - cbn [length]. by rewrite IH.
  - destruct (strings.Split r (String c "")) as [|h tl]; [done|].
    cbn [length Nat.add] in *. done.
Qed.
